(** * WESO turbine controller: a shallow embedding of
      [WESO25_Code_Refactored.ino] and the properties of its control loop.

    The sketch targets a classic AVR Arduino board: [int] is 16 bits wide,
    [unsigned long] is 32 bits wide, and both [float] and [double] are IEEE-754
    single precision.  Integers are modelled as [Z] with the wrap-around
    written out; floating-point values are modelled with the executable
    specification of IEEE-754 arithmetic of the standard library
    ([SpecFloat]) instantiated at precision 24 and maximal exponent 128,
    rounding to nearest, ties to even. *)

From Stdlib Require Import ZArith List String Lia Bool QArith.
From Stdlib Require Import Floats.SpecFloat.
From stdpp Require Import base list.

Local Open Scope Z_scope.

(** ** Machine numbers *)

Module F32.

Definition float : Type := spec_float.

Definition prec : Z := 24.
Definition emax : Z := 128.

(** Conversion of an integer value ([int], [unsigned long]) to [float]. *)
Definition of_Z (z : Z) : float := binary_normalize prec emax z 0 false.

(** The dyadic literal [m * 2^e]. *)
Definition dyadic (m e : Z) : float := binary_normalize prec emax m e false.

Definition add : float -> float -> float := SFadd prec emax.
Definition mul : float -> float -> float := SFmul prec emax.
Definition div : float -> float -> float := SFdiv prec emax.

(** [a < b] and [a > b] of C++; both are false when an operand is NaN. *)
Definition ltb (a b : float) : bool := SFltb a b.
Definition gtb (a b : float) : bool := SFltb b a.
Definition eqb (a b : float) : bool := SFeqb a b.

Definition zero : float := S754_zero false.

(** Conversion of a [float] to an integer type: truncation toward zero
    (finite values only; the sketch converts one literal). *)
Definition trunc (x : float) : Z :=
  match x with
  | S754_finite s m e =>
      let a := match e with
               | Zneg p => Z.quot (Zpos m) (Z.pow_pos 2 p)
               | _ => Zpos m * 2 ^ e
               end in
      if s then - a else a
  | _ => 0
  end.

(** The exact rational value of a finite [float]. *)
Definition to_Q (x : float) : option Q :=
  match x with
  | S754_zero _ => Some (0 # 1)%Q
  | S754_finite s m e =>
      let a := match e with
               | Zneg p => (Zpos m # Pos.pow 2 p)%Q
               | _ => inject_Z (Zpos m * 2 ^ e)
               end in
      Some (if s then Qopp a else a)
  | _ => None
  end.

End F32.

Abbreviation float := F32.float.

(** [int] of the AVR target: 16 bits, two's complement. *)
Definition wrap_int (z : Z) : Z := (z + 32768) mod 65536 - 32768.
Arguments wrap_int : simpl never.

(** [unsigned long] of the AVR target: 32 bits. *)
Definition wrap_ulong (z : Z) : Z := z mod 4294967296.

(** ** Constants of the sketch *)

(** [const int loadThreshold = 11.90;] the literal is converted to [int]. *)
Definition lit_11_90 : float := F32.div (F32.of_Z 119) (F32.of_Z 10).
Definition loadThreshold : Z := F32.trunc lit_11_90.

Definition HIGH : Z := 1.
Definition LOW : Z := 0.

Definition stepSize : Z := 1.
Definition actuatorMin : Z := 47.
Definition actuatorMax : Z := 71.

Definition numSamples : Z := 10.
Definition updateInterval : Z := 100.

Definition maxShaftRPM : float := F32.of_Z 1750.
Definition minValidRPM : float := F32.zero.
Definition maxValidRPM : float := F32.of_Z 5000.

Definition lit_60000000 : float := F32.of_Z 60000000.
Definition lit_1024 : float := F32.of_Z 1024.
Definition lit_0_3125 : float := F32.dyadic 5 (-4).

(** ** Global variables

    The variables the sketch reads or writes after initialisation.  The pin
    numbers, [rpmEstopEna], [minSafeRPM] and the file-scope [EPin] (shadowed by
    the local of [loop]) are read by no statement and are left out. *)

Record state : Type := mkState {
  estopEngaged : bool;
  actuatorPosition : Z;
  lastPulseTime : Z;
  pulseInterval : Z;
  pulseReceived : bool;
  rpm : float;
  rpmSamples : list float;
  sampleIndex : Z;
  lastRPM : float;
  lastUpdateTime : Z;
  movingUp : bool;
  braking : bool
}.

Definition set_estopEngaged (v : bool) (s : state) : state :=
  mkState v (actuatorPosition s) (lastPulseTime s) (pulseInterval s)
    (pulseReceived s) (rpm s) (rpmSamples s) (sampleIndex s) (lastRPM s)
    (lastUpdateTime s) (movingUp s) (braking s).
Definition set_actuatorPosition (v : Z) (s : state) : state :=
  mkState (estopEngaged s) v (lastPulseTime s) (pulseInterval s)
    (pulseReceived s) (rpm s) (rpmSamples s) (sampleIndex s) (lastRPM s)
    (lastUpdateTime s) (movingUp s) (braking s).
Definition set_lastPulseTime (v : Z) (s : state) : state :=
  mkState (estopEngaged s) (actuatorPosition s) v (pulseInterval s)
    (pulseReceived s) (rpm s) (rpmSamples s) (sampleIndex s) (lastRPM s)
    (lastUpdateTime s) (movingUp s) (braking s).
Definition set_pulseInterval (v : Z) (s : state) : state :=
  mkState (estopEngaged s) (actuatorPosition s) (lastPulseTime s) v
    (pulseReceived s) (rpm s) (rpmSamples s) (sampleIndex s) (lastRPM s)
    (lastUpdateTime s) (movingUp s) (braking s).
Definition set_pulseReceived (v : bool) (s : state) : state :=
  mkState (estopEngaged s) (actuatorPosition s) (lastPulseTime s)
    (pulseInterval s) v (rpm s) (rpmSamples s) (sampleIndex s) (lastRPM s)
    (lastUpdateTime s) (movingUp s) (braking s).
Definition set_rpm (v : float) (s : state) : state :=
  mkState (estopEngaged s) (actuatorPosition s) (lastPulseTime s)
    (pulseInterval s) (pulseReceived s) v (rpmSamples s) (sampleIndex s)
    (lastRPM s) (lastUpdateTime s) (movingUp s) (braking s).
Definition set_rpmSamples (v : list float) (s : state) : state :=
  mkState (estopEngaged s) (actuatorPosition s) (lastPulseTime s)
    (pulseInterval s) (pulseReceived s) (rpm s) v (sampleIndex s)
    (lastRPM s) (lastUpdateTime s) (movingUp s) (braking s).
Definition set_sampleIndex (v : Z) (s : state) : state :=
  mkState (estopEngaged s) (actuatorPosition s) (lastPulseTime s)
    (pulseInterval s) (pulseReceived s) (rpm s) (rpmSamples s) v
    (lastRPM s) (lastUpdateTime s) (movingUp s) (braking s).
Definition set_lastRPM (v : float) (s : state) : state :=
  mkState (estopEngaged s) (actuatorPosition s) (lastPulseTime s)
    (pulseInterval s) (pulseReceived s) (rpm s) (rpmSamples s)
    (sampleIndex s) v (lastUpdateTime s) (movingUp s) (braking s).
Definition set_lastUpdateTime (v : Z) (s : state) : state :=
  mkState (estopEngaged s) (actuatorPosition s) (lastPulseTime s)
    (pulseInterval s) (pulseReceived s) (rpm s) (rpmSamples s)
    (sampleIndex s) (lastRPM s) v (movingUp s) (braking s).
Definition set_movingUp (v : bool) (s : state) : state :=
  mkState (estopEngaged s) (actuatorPosition s) (lastPulseTime s)
    (pulseInterval s) (pulseReceived s) (rpm s) (rpmSamples s)
    (sampleIndex s) (lastRPM s) (lastUpdateTime s) v (braking s).
Definition set_braking (v : bool) (s : state) : state :=
  mkState (estopEngaged s) (actuatorPosition s) (lastPulseTime s)
    (pulseInterval s) (pulseReceived s) (rpm s) (rpmSamples s)
    (sampleIndex s) (lastRPM s) (lastUpdateTime s) (movingUp s) v.

(** The values of the static initialisers. *)
Definition power_on : state :=
  {| estopEngaged := false;
     actuatorPosition := 56;
     lastPulseTime := 0;
     pulseInterval := 0;
     pulseReceived := false;
     rpm := F32.zero;
     rpmSamples := replicate 10 F32.zero;
     sampleIndex := 0;
     lastRPM := F32.zero;
     lastUpdateTime := 0;
     movingUp := true;
     braking := false |}.

(** ** Observable effects: the serial log, the servo and the delay *)

Inductive sval : Type :=
| Str (s : string)
| Int (z : Z)
| Flt (f : float).

Inductive io : Type :=
| Print (v : sval)
| Println (v : sval)
| ServoWrite (pos : Z)
| Delay (ms : Z).

(** ** A state monad with an output log *)

Definition M (A : Type) : Type := state -> A * state * list io.

#[global] Instance M_ret : MRet M := fun A a s => (a, s, []).
#[global] Instance M_bind : MBind M := fun A B k m s =>
  let '(a, s1, o1) := m s in
  let '(b, s2, o2) := k a s1 in
  (b, s2, o1 ++ o2).

Definition get : M state := fun s => (s, s, []).
Definition modify (f : state -> state) : M unit := fun s => (tt, f s, []).
Definition emit (e : io) : M unit := fun s => (tt, s, [e]).
Definition skip : M unit := mret tt.

(** The state and the log a command leaves. *)
Definition exec {A} (m : M A) (s : state) : state := snd (fst (m s)).
Definition log {A} (m : M A) (s : state) : list io := snd (m s).

(** ** The interrupt service routine *)

(** [pulseISR], run at a rising edge of the encoder; [now] is the value
    [micros()] returns there. *)
Definition pulseISR (now : Z) : M unit :=
  let currentTime := now in
  s ← get;
  modify (set_pulseInterval (wrap_ulong (currentTime - lastPulseTime s)));;
  modify (set_lastPulseTime currentTime);;
  modify (set_pulseReceived true).

(** ** [setup] *)

Definition setup : M unit :=
  modify (set_braking false);;
  modify (set_estopEngaged false);;
  s ← get;
  emit (ServoWrite (actuatorPosition s)).

(** ** The RPM estimator *)

(** [float newRPM = 60000000.0 / interval;] *)
Definition newRPM_of (interval : Z) : float :=
  F32.div lit_60000000 (F32.of_Z interval).

(** The sanity check [newRPM > minValidRPM && newRPM < maxValidRPM]. *)
Definition validRPM (newRPM : float) : bool :=
  F32.gtb newRPM minValidRPM && F32.ltb newRPM maxValidRPM.

(** The summation loop [for (int i = 0; i < numSamples; i++) sum += rpmSamples[i];]
    started from [float sum = 0]. *)
Definition sum_samples (samples : list float) : float :=
  fold_left (fun sum i => F32.add sum (default F32.zero (samples !! i)))
    (seq 0 (Z.to_nat numSamples)) (F32.of_Z 0).

(** [sum / numSamples] *)
Definition average (samples : list float) : float :=
  F32.div (sum_samples samples) (F32.of_Z numSamples).

(** [handleRPMUpdates].  The interrupt-free section copies the interval and
    clears the flag in one step.  The array write is within bounds whenever
    [0 <= sampleIndex < 10]; outside, C++ gives it no meaning and the list
    update does nothing. *)
Definition handleRPMUpdates : M unit :=
  s ← get;
  if pulseReceived s then
    let interval := pulseInterval s in
    modify (set_pulseReceived false);;
    if 0 <? interval then
      let newRPM := newRPM_of interval in
      if validRPM newRPM then
        s ← get;
        modify (set_rpmSamples (<[Z.to_nat (sampleIndex s) := newRPM]> (rpmSamples s)));;
        modify (set_sampleIndex (Z.rem (wrap_int (sampleIndex s + 1)) numSamples));;
        s ← get;
        modify (set_rpm (average (rpmSamples s)));;
        s ← get;
        emit (Print (Str "Smoothed Shaft RPM: "));;
        emit (Println (Flt (rpm s)))
      else
        emit (Println (Str "Ignored bad RPM reading"))
    else skip
  else skip.

(** ** The main loop *)

(** What one iteration reads from the outside: [millis()],
    [digitalRead(estopPin)] and [analogRead(loadPin)]. *)
Record inputs : Type := mkInputs {
  in_millis : Z;
  in_estop : Z;
  in_load : Z
}.

(** [float Vmeasured = reading / 1024.0 * 5;] *)
Definition Vmeasured_of (reading : float) : float :=
  F32.mul (F32.div reading lit_1024) (F32.of_Z 5).

(** [float Vload = Vmeasured / 0.3125;] *)
Definition Vload_of (Vmeasured : float) : float :=
  F32.div Vmeasured lit_0_3125.

(** [bool loadConnected = Vload < loadThreshold;] the [int] threshold is
    converted to [float] for the comparison. *)
Definition loadConnected_of (Vload : float) : bool :=
  F32.ltb Vload (F32.of_Z loadThreshold).

(** The load-sense chain from the raw ADC reading. *)
Definition loadConnected_at (analog : Z) : bool :=
  loadConnected_of (Vload_of (Vmeasured_of (F32.of_Z analog))).

(** The condition of the interlock, [!loadConnected || digitalRead(estopPin) == HIGH].
    In the sketch it only occurs in the block comment that precedes the
    braking state; no statement of [loop] evaluates it. *)
Definition shouldStop (loadConnected : bool) (EPin : Z) : bool :=
  negb loadConnected || (EPin =? HIGH).

(** The braking state: [if (braking) { ... }]. *)
Definition braking_block : M unit :=
  s ← get;
  if braking s then
    emit (Println (Str "Braking"));;
    modify (set_actuatorPosition 70);;
    s ← get;
    emit (ServoWrite (actuatorPosition s));;
    emit (Println (Int (actuatorPosition s)));;
    modify (set_braking false);;
    modify (set_estopEngaged false)
  else skip.

(** The guard of the optimizer. *)
Definition tick_due (currentTime : Z) (s : state) : bool :=
  negb (braking s) && negb (estopEngaged s)
  && (updateInterval <? wrap_ulong (currentTime - lastUpdateTime s)).

(** [actuatorPosition += stepSize] and [actuatorPosition -= stepSize]. *)
Definition step_up : M unit :=
  s ← get; modify (set_actuatorPosition (wrap_int (actuatorPosition s + stepSize))).
Definition step_down : M unit :=
  s ← get; modify (set_actuatorPosition (wrap_int (actuatorPosition s - stepSize))).

(** The three-way decision of the optimizer. *)
Definition decide_move : M unit :=
  s ← get;
  if F32.gtb (rpm s) maxShaftRPM then
    step_up;;
    emit (Println (Str "RPM too high, feathering blades."))
  else if F32.gtb (rpm s) (lastRPM s) then
    emit (Println (Str "RPM GREATER THAN LAST RPM"));;
    if movingUp s then
      step_up;;
      emit (Println (Str "ACTUATOR Up"))
    else
      step_down;;
      emit (Println (Str "RPM improving, continuing same direction."));;
      emit (Println (Str "ACTUATOR DOWN"))
  else
    emit (Println (Str "RPM GOT WORSE"));;
    modify (set_movingUp (negb (movingUp s)));;
    s ← get;
    if movingUp s then
      step_up;;
      emit (Println (Str "actuator UP"))
    else
      step_down;;
      emit (Println (Str "RPM dropped, reversing direction."));;
      emit (Println (Str "actuator DOWN")).

(** The two bounding statements. *)
Definition bound_position : M unit :=
  s ← get;
  (if actuatorMax <? actuatorPosition s
   then modify (set_actuatorPosition actuatorMax) else skip);;
  s ← get;
  (if actuatorPosition s <? actuatorMin
   then modify (set_actuatorPosition actuatorMin) else skip).

(** Bounding, the servo command, the log and [lastRPM = rpm]. *)
Definition commit_move : M unit :=
  bound_position;;
  s ← get;
  emit (ServoWrite (actuatorPosition s));;
  emit (Println (Str "New Actuator Position: "));;
  emit (Println (Int (actuatorPosition s)));;
  modify (set_lastRPM (rpm s)).

(** Actuator optimization: [if (!braking && !estopEngaged && ...) { ... }]. *)
Definition optimizer_block (currentTime : Z) : M unit :=
  s ← get;
  if tick_due currentTime s then
    modify (set_lastUpdateTime currentTime);;
    decide_move;;
    commit_move
  else skip.

(** [loop].  Nothing stands between the heading [// --- Handle RPM updates ---]
    and the braking state, and the interlock is inside a block comment. *)
Definition loop (inp : inputs) : M unit :=
  let currentTime := in_millis inp in
  let EPin := in_estop inp in
  emit (Println (Int EPin));;
  let reading := F32.of_Z (in_load inp) in
  emit (Println (Flt reading));;
  let Vmeasured := Vmeasured_of reading in
  let Vload := Vload_of Vmeasured in
  let loadConnected := loadConnected_of Vload in
  emit (Println (Flt Vload));;
  emit (Print (Str "Input Voltage: "));;
  emit (Println (Flt Vmeasured));;
  braking_block;;
  optimizer_block currentTime;;
  emit (Delay 500).

(** ** Runs of the sketch *)

(** The state [setup] leaves. *)
Definition init : state := exec setup power_on.

(** After [setup] the processor runs [loop] again and again, and the encoder
    interrupt fires in between.  [loop] neither reads nor writes the three
    variables of the interrupt routine and the routine touches no other, so an
    interrupt inside an iteration acts as one just before it. *)
Inductive event : Type :=
| Iteration (inp : inputs)
| Pulse (now : Z).

Definition step (s : state) (ev : event) : state :=
  match ev with
  | Iteration inp => exec (loop inp) s
  | Pulse now => exec (pulseISR now) s
  end.

Definition run (evs : list event) (s : state) : state := fold_left step evs s.

(** Inputs the hardware can deliver. *)
Definition wf_inputs (inp : inputs) : Prop :=
  0 <= in_millis inp < 4294967296
  /\ (in_estop inp = LOW \/ in_estop inp = HIGH)
  /\ 0 <= in_load inp <= 1023.


(** ** Vocabulary of the statements *)

(** The effect of the two bounding statements on a position. *)
Definition clamp (z : Z) : Z := Z.max actuatorMin (Z.min actuatorMax z).

(** The branch [decide_move] takes. *)
Inductive branch : Type := Overspeed | Improving | NotImproving.

Definition branch_of (s : state) : branch :=
  if F32.gtb (rpm s) maxShaftRPM then Overspeed
  else if F32.gtb (rpm s) (lastRPM s) then Improving
  else NotImproving.

(** The state between the decision and the bounding statements of a tick
    that starts at time [t] in state [s]. *)
Definition tentative (t : Z) (s : state) : state :=
  exec decide_move (set_lastUpdateTime t s).

(** Modelled on the words of the specification, for comparison with
    [loadConnected_at]: the same chain with the threshold 11.90 itself. *)
Definition loadConnected_spec (analog : Z) : bool :=
  F32.ltb (Vload_of (Vmeasured_of (F32.of_Z analog))) lit_11_90.

(** The values [analogRead] can return. *)
Definition adc_readings : list Z := map Z.of_nat (seq 0 1024).

(** One encoder pulse [interval] microseconds after the previous one,
    followed by one call of [handleRPMUpdates]. *)
Definition pulse_and_update (interval : Z) : M unit :=
  s ← get;
  pulseISR (wrap_ulong (lastPulseTime s + interval));;
  handleRPMUpdates.

(** [n] such pulses in a row. *)
Definition feed (interval : Z) (n : nat) (s : state) : state :=
  Nat.iter n (exec (pulse_and_update interval)) s.

(** ** Further vocabulary: runs that also call the estimator *)

(** The routines of the sketch, in any order: an iteration of [loop], an
    encoder interrupt, a call of [handleRPMUpdates]. *)
Inductive action : Type :=
| DoLoop (inp : inputs)
| DoPulse (now : Z)
| DoUpdate.

Definition act (s : state) (a : action) : state :=
  match a with
  | DoLoop inp => exec (loop inp) s
  | DoPulse now => exec (pulseISR now) s
  | DoUpdate => exec handleRPMUpdates s
  end.

Definition perform (acts : list action) (s : state) : state :=
  fold_left act acts s.

(** Pulses at the given intervals, each consumed by [handleRPMUpdates]. *)
Definition feed_intervals (l : list Z) (s : state) : state :=
  fold_left (fun s i => exec (pulse_and_update i) s) l s.

(** Iterations of [loop] on the given inputs, the optimizer being due in each
    of them. *)
Fixpoint ticks_due (inps : list inputs) (s : state) : bool :=
  match inps with
  | [] => true
  | inp :: rest =>
      tick_due (in_millis inp) (exec braking_block s)
      && ticks_due rest (exec (loop inp) s)
  end.

(** What the buffer may hold: the initial zero or an admitted sample. *)
Definition slot_ok (x : float) : Prop := x = F32.zero \/ validRPM x = true.

(** The servo commands of a log. *)
Definition servo_writes (l : list io) : list Z :=
  flat_map (fun e => match e with ServoWrite p => [p] | _ => [] end) l.

(** ** The IR sensor demonstration sketch, [IRSensorDemo.ino] *)

Module IRSensorDemo.

Record state : Type := mkState {
  lastMicros : Z;
  pulseInterval : Z;
  lastRPM : Z;
  directionFlipFlop : Z
}.

Definition power_on : state :=
  {| lastMicros := 0; pulseInterval := 0; lastRPM := 0;
     directionFlipFlop := -1 |}.

Inductive servo : Type := mockActuator | servo2 | servo3.

Inductive io : Type := Write (sv : servo) (angle : Z).

(** [pulseISR] of the demonstration: no flag, the interval is overwritten. *)
Definition pulseISR (now : Z) (s : state) : state :=
  {| lastMicros := now;
     pulseInterval := wrap_ulong (now - lastMicros s);
     lastRPM := lastRPM s;
     directionFlipFlop := directionFlipFlop s |}.

(** [updateServo]: on a change of the (integer) RPM the three servos are
    sent to 135 or to 45 and the direction changes sign. *)
Definition updateServo (currentRPM : Z) (s : state) : state * list io :=
  if negb (currentRPM =? lastRPM s) then
    let out :=
      if directionFlipFlop s =? -1
      then [Write mockActuator 135; Write servo2 135; Write servo3 135]
      else [Write mockActuator 45; Write servo2 45; Write servo3 45] in
    ({| lastMicros := lastMicros s;
        pulseInterval := pulseInterval s;
        lastRPM := currentRPM;
        directionFlipFlop := wrap_int (directionFlipFlop s * -1) |}, out)
  else (s, []).

(** Calls of [updateServo] on a sequence of readings, with the servo
    commands they issue. *)
Fixpoint updates (rpms : list Z) (s : state) : state * list io :=
  match rpms with
  | [] => (s, [])
  | r :: rest =>
      let '(s1, o1) := updateServo r s in
      let '(s2, o2) := updates rest s1 in
      (s2, o1 ++ o2)
  end.

(** The number of readings that differ from the reading before them. *)
Fixpoint changes (prev : Z) (rpms : list Z) : nat :=
  match rpms with
  | [] => O
  | r :: rest => ((if (r =? prev)%Z then 0 else 1) + changes r rest)%nat
  end.

(** The angles commanded at the changes, the first at direction [d]. *)
Fixpoint angles (d : Z) (n : nat) : list Z :=
  match n with
  | O => []
  | S k => (if d =? -1 then 135 else 45) :: angles (- d) k
  end.

End IRSensorDemo.

(** * Properties *)

(** ** Sequencing *)

Lemma exec_bind {A B} (m : M A) (k : A -> M B) (s : state) :
  exec (m ≫= k) s = exec (k (fst (fst (m s)))) (exec m s).
Proof.
  unfold exec, mbind, M_bind. destruct (m s) as [[a s1] o1]. cbn.
  destruct (k a s1) as [[b s2] o2]. reflexivity.
Qed.

Lemma log_bind {A B} (m : M A) (k : A -> M B) (s : state) :
  log (m ≫= k) s = log m s ++ log (k (fst (fst (m s)))) (exec m s).
Proof.
  unfold log, exec, mbind, M_bind. destruct (m s) as [[a s1] o1]. cbn.
  destruct (k a s1) as [[b s2] o2]. reflexivity.
Qed.

Lemma exec_emit (e : io) (s : state) : exec (emit e) s = s.
Proof. reflexivity. Qed.

Lemma exec_skip (s : state) : exec skip s = s.
Proof. reflexivity. Qed.

Lemma exec_modify (f : state -> state) (s : state) : exec (modify f) s = f s.
Proof. reflexivity. Qed.

Lemma exec_if {A} (b : bool) (m1 m2 : M A) (s : state) :
  exec (if b then m1 else m2) s = if b then exec m1 s else exec m2 s.
Proof. destruct b; reflexivity. Qed.

Lemma log_if {A} (b : bool) (m1 m2 : M A) (s : state) :
  log (if b then m1 else m2) s = if b then log m1 s else log m2 s.
Proof. destruct b; reflexivity. Qed.

(** ** The blocks of [loop] as state transformers *)

Lemma clamp_range (z : Z) : 47 <= clamp z <= 71.
Proof. unfold clamp, actuatorMin, actuatorMax. lia. Qed.

Lemma clamp_id (z : Z) : 47 <= z <= 71 -> clamp z = z.
Proof. unfold clamp, actuatorMin, actuatorMax. lia. Qed.

Lemma wrap_int_id (z : Z) : -32768 <= z <= 32767 -> wrap_int z = z.
Proof.
  intros H. unfold wrap_int. rewrite Z.mod_small by lia. lia.
Qed.

Lemma exec_pulseISR (now : Z) (s : state) :
  exec (pulseISR now) s =
  set_pulseReceived true
    (set_lastPulseTime now
       (set_pulseInterval (wrap_ulong (now - lastPulseTime s)) s)).
Proof. reflexivity. Qed.

Lemma exec_braking_block (s : state) :
  exec braking_block s =
  if braking s
  then set_estopEngaged false (set_braking false (set_actuatorPosition 70 s))
  else s.
Proof.
  unfold braking_block. rewrite exec_bind. cbn [get fst].
  destruct (braking s); reflexivity.
Qed.

Lemma log_braking_block (s : state) :
  log braking_block s =
  if braking s
  then [Println (Str "Braking"); ServoWrite 70; Println (Int 70)]
  else [].
Proof.
  unfold braking_block. rewrite log_bind. cbn [get fst].
  destruct (braking s); reflexivity.
Qed.

Lemma exec_step_up (s : state) :
  exec step_up s = set_actuatorPosition (wrap_int (actuatorPosition s + stepSize)) s.
Proof. reflexivity. Qed.

Lemma exec_step_down (s : state) :
  exec step_down s = set_actuatorPosition (wrap_int (actuatorPosition s - stepSize)) s.
Proof. reflexivity. Qed.

Lemma exec_decide_move (s : state) :
  exec decide_move s =
  match branch_of s with
  | Overspeed => exec step_up s
  | Improving => if movingUp s then exec step_up s else exec step_down s
  | NotImproving =>
      let s1 := set_movingUp (negb (movingUp s)) s in
      if movingUp s1 then exec step_up s1 else exec step_down s1
  end.
Proof.
  unfold decide_move, branch_of. rewrite exec_bind. cbn [get fst].
  destruct (F32.gtb (rpm s) maxShaftRPM); [reflexivity|].
  destruct (F32.gtb (rpm s) (lastRPM s)).
  - destruct (movingUp s); reflexivity.
  - destruct (movingUp s); reflexivity.
Qed.

Lemma log_decide_move (s : state) :
  log decide_move s =
  match branch_of s with
  | Overspeed => [Println (Str "RPM too high, feathering blades.")]
  | Improving =>
      Println (Str "RPM GREATER THAN LAST RPM")
      :: (if movingUp s then [Println (Str "ACTUATOR Up")]
          else [Println (Str "RPM improving, continuing same direction.");
                Println (Str "ACTUATOR DOWN")])
  | NotImproving =>
      Println (Str "RPM GOT WORSE")
      :: (if negb (movingUp s) then [Println (Str "actuator UP")]
          else [Println (Str "RPM dropped, reversing direction.");
                Println (Str "actuator DOWN")])
  end.
Proof.
  unfold decide_move, branch_of. rewrite log_bind. cbn [get fst].
  destruct (F32.gtb (rpm s) maxShaftRPM); [reflexivity|].
  destruct (F32.gtb (rpm s) (lastRPM s)).
  - destruct (movingUp s); reflexivity.
  - destruct (movingUp s); reflexivity.
Qed.

Lemma exec_bound_position (s : state) :
  exec bound_position s = set_actuatorPosition (clamp (actuatorPosition s)) s.
Proof.
  destruct s as [e p lp pi pr r rs si lr lu mu b].
  unfold bound_position, clamp, actuatorMin, actuatorMax, exec,
    set_actuatorPosition, mbind, M_bind, get, modify, skip, mret, M_ret.
  cbn.
  destruct (71 <? p) eqn:H1; cbn.
  - apply Z.ltb_lt in H1. f_equal. lia.
  - apply Z.ltb_ge in H1. destruct (p <? 47) eqn:H2; cbn.
    + apply Z.ltb_lt in H2. f_equal. lia.
    + apply Z.ltb_ge in H2. f_equal. lia.
Qed.

Lemma exec_commit_move (s : state) :
  exec commit_move s =
  set_lastRPM (rpm s) (set_actuatorPosition (clamp (actuatorPosition s)) s).
Proof.
  unfold commit_move. rewrite !exec_bind, exec_bound_position. reflexivity.
Qed.

Lemma log_commit_move (s : state) :
  log commit_move s =
  [ServoWrite (clamp (actuatorPosition s));
   Println (Str "New Actuator Position: ");
   Println (Int (clamp (actuatorPosition s)))].
Proof.
  unfold commit_move. rewrite log_bind.
  assert (Hb : log bound_position s = []).
  { unfold bound_position. rewrite !log_bind, !log_if. cbn [get fst].
    destruct (actuatorMax <? _), (_ <? actuatorMin); reflexivity. }
  rewrite Hb, exec_bound_position. reflexivity.
Qed.

Lemma exec_optimizer_block (t : Z) (s : state) :
  exec (optimizer_block t) s =
  if tick_due t s
  then exec commit_move (exec decide_move (set_lastUpdateTime t s))
  else s.
Proof.
  unfold optimizer_block. rewrite exec_bind. cbn [get fst].
  destruct (tick_due t s); [|reflexivity].
  rewrite !exec_bind. reflexivity.
Qed.

Lemma log_optimizer_block (t : Z) (s : state) :
  log (optimizer_block t) s =
  if tick_due t s
  then log decide_move (set_lastUpdateTime t s)
       ++ log commit_move (exec decide_move (set_lastUpdateTime t s))
  else [].
Proof.
  unfold optimizer_block. rewrite log_bind. cbn [get fst].
  destruct (tick_due t s); [|reflexivity].
  rewrite !log_bind. reflexivity.
Qed.

Lemma exec_loop (inp : inputs) (s : state) :
  exec (loop inp) s = exec (optimizer_block (in_millis inp)) (exec braking_block s).
Proof.
  unfold loop. rewrite !exec_bind. reflexivity.
Qed.

Lemma log_loop (inp : inputs) (s : state) :
  log (loop inp) s =
  [Println (Int (in_estop inp));
   Println (Flt (F32.of_Z (in_load inp)));
   Println (Flt (Vload_of (Vmeasured_of (F32.of_Z (in_load inp)))));
   Print (Str "Input Voltage: ");
   Println (Flt (Vmeasured_of (F32.of_Z (in_load inp))))]
  ++ log braking_block s
  ++ log (optimizer_block (in_millis inp)) (exec braking_block s)
  ++ [Delay 500].
Proof.
  unfold loop. rewrite !log_bind. reflexivity.
Qed.

(** ** What an iteration leaves alone *)

Ltac loop_cases s :=
  rewrite ?exec_loop, ?exec_optimizer_block, ?exec_braking_block;
  destruct (braking s) eqn:?Hbr;
  match goal with
  | |- context [tick_due ?t ?x] => destruct (tick_due t x) eqn:?Htick
  end;
  rewrite ?exec_commit_move, ?exec_decide_move;
  try match goal with
  | |- context [branch_of ?x] => destruct (branch_of x) eqn:?Hbranch
  end;
  rewrite ?exec_step_up, ?exec_step_down; cbn;
  try match goal with
  | |- context [if ?b then _ else _] => destruct b eqn:?Hmu
  end;
  rewrite ?exec_step_up, ?exec_step_down; cbn.

(** [loop] never touches the variables of the RPM estimator. *)
Lemma loop_frame (inp : inputs) (s : state) :
  let s' := exec (loop inp) s in
  rpm s' = rpm s /\ rpmSamples s' = rpmSamples s
  /\ sampleIndex s' = sampleIndex s /\ pulseReceived s' = pulseReceived s
  /\ pulseInterval s' = pulseInterval s /\ lastPulseTime s' = lastPulseTime s.
Proof.
  cbv zeta. loop_cases s; repeat split; reflexivity.
Qed.

(** [loop] clears the two flags and never sets them. *)
Lemma loop_flags (inp : inputs) (s : state) :
  let s' := exec (loop inp) s in
  braking s' = false
  /\ estopEngaged s' = (if braking s then false else estopEngaged s).
Proof.
  cbv zeta. loop_cases s; split; try reflexivity; assumption.
Qed.

Lemma loop_lastRPM (inp : inputs) (s : state) :
  let s' := exec (loop inp) s in
  lastRPM s' = lastRPM s \/ lastRPM s' = rpm s.
Proof.
  cbv zeta. loop_cases s; auto.
Qed.

(** The interrupt routine only writes its own three variables. *)
Lemma pulseISR_frame (now : Z) (s : state) :
  let s' := exec (pulseISR now) s in
  rpm s' = rpm s /\ lastRPM s' = lastRPM s /\ braking s' = braking s
  /\ estopEngaged s' = estopEngaged s /\ movingUp s' = movingUp s
  /\ actuatorPosition s' = actuatorPosition s
  /\ rpmSamples s' = rpmSamples s /\ sampleIndex s' = sampleIndex s
  /\ lastUpdateTime s' = lastUpdateTime s.
Proof. cbv zeta. rewrite exec_pulseISR. repeat split. Qed.

Lemma run_snoc (evs : list event) (ev : event) (s : state) :
  run (evs ++ [ev]) s = step (run evs s) ev.
Proof. unfold run. rewrite fold_left_app. reflexivity. Qed.

(** The invariant of the sketch as shipped. *)
Lemma shipped_invariant (evs : list event) :
  let s := run evs init in
  rpm s = F32.zero /\ lastRPM s = F32.zero
  /\ braking s = false /\ estopEngaged s = false.
Proof.
  cbv zeta. induction evs as [|ev evs IH] using rev_ind.
  - repeat split.
  - rewrite run_snoc. destruct IH as (Hr & Hl & Hb & He).
    destruct ev as [inp|now]; cbn [step].
    + pose proof (loop_frame inp (run evs init)) as (Hr' & _).
      pose proof (loop_flags inp (run evs init)) as (Hb' & He').
      pose proof (loop_lastRPM inp (run evs init)) as Hl'.
      cbv zeta in *. rewrite Hb in He'.
      repeat split; try congruence.
      destruct Hl'; congruence.
    + pose proof (pulseISR_frame now (run evs init)) as (? & ? & ? & ? & _).
      cbv zeta in *. repeat split; congruence.
Qed.

Lemma position_preserved (inp : inputs) (s : state) :
  47 <= actuatorPosition s <= 71 ->
  47 <= actuatorPosition (exec (loop inp) s) <= 71.
Proof.
  intros H. loop_cases s; try apply clamp_range; lia.
Qed.

Lemma position_run (evs : list event) (s : state) :
  47 <= actuatorPosition s <= 71 ->
  47 <= actuatorPosition (run evs s) <= 71.
Proof.
  revert s. induction evs as [|ev evs IH]; intros s Hs; [exact Hs|].
  cbn [run fold_left]. apply IH.
  destruct ev as [inp|now]; cbn [step].
  - apply position_preserved, Hs.
  - exact Hs.
Qed.

Lemma position_reachable (evs : list event) :
  47 <= actuatorPosition (run evs init) <= 71.
Proof. apply position_run. change (47 <= 56 <= 71). lia. Qed.

(** ** The estimator is never run *)

(** C1 (the code departs from the claim).  [loop] contains no call of
    [handleRPMUpdates]: every iteration leaves the pending-pulse flag, the
    sample buffer, its cursor and the smoothed RPM as they were.  With a pulse
    of 40000 microseconds pending after start-up, one iteration of [loop]
    still has the pulse pending and [rpm] at 0, whereas one call of
    [handleRPMUpdates] would have consumed it and set [rpm] to 150. *)
Theorem loop_never_consumes_pulse :
  (forall inp s,
      pulseReceived (exec (loop inp) s) = pulseReceived s
      /\ rpm (exec (loop inp) s) = rpm s
      /\ rpmSamples (exec (loop inp) s) = rpmSamples s
      /\ sampleIndex (exec (loop inp) s) = sampleIndex s)
  /\ let s0 := exec (pulseISR 40000) init in
     let s1 := exec (loop (mkInputs 1000 LOW 500)) s0 in
     pulseReceived s0 = true /\ pulseInterval s0 = 40000
     /\ pulseReceived s1 = true /\ rpm s1 = F32.zero
     /\ pulseReceived (exec handleRPMUpdates s0) = false
     /\ rpm (exec handleRPMUpdates s0) = F32.of_Z 150.
Proof.
  split.
  - intros inp s. pose proof (loop_frame inp s) as H. cbv zeta in H. tauto.
  - vm_compute. repeat split.
Qed.

(** C2.  In every state the shipped sketch reaches (any sequence of loop
    iterations and encoder interrupts after [setup]), [rpm] and [lastRPM] are
    both 0.0, so the test [rpm > lastRPM] is false, neither the overspeed nor
    the improving branch is taken, and every iteration in which the optimizer
    runs takes the reversal branch and flips [movingUp]; iterations in which
    it does not run, and interrupts, leave [movingUp] alone. *)
Theorem shipped_rpm_is_always_zero (evs : list event) (inp : inputs) :
  let s := run evs init in
  let s' := exec (loop inp) s in
  rpm s = F32.zero /\ lastRPM s = F32.zero
  /\ F32.gtb (rpm s) (lastRPM s) = false
  /\ branch_of s = NotImproving
  /\ (tick_due (in_millis inp) (exec braking_block s) = true ->
        movingUp s' = negb (movingUp s)
        /\ In (Println (Str "RPM GOT WORSE")) (log (loop inp) s))
  /\ (tick_due (in_millis inp) (exec braking_block s) = false ->
        movingUp s' = movingUp s)
  /\ (forall now, movingUp (exec (pulseISR now) s) = movingUp s).
Proof.
  cbv zeta. pose proof (shipped_invariant evs) as (Hr & Hl & Hb & He).
  cbv zeta in *. set (s := run evs init) in *.
  assert (Hbr : branch_of s = NotImproving).
  { unfold branch_of. rewrite Hr, Hl. reflexivity. }
  assert (Hbb : exec braking_block s = s).
  { rewrite exec_braking_block, Hb. reflexivity. }
  rewrite Hbb.
  repeat split; try assumption.
  - rewrite Hr, Hl. reflexivity.
  - rewrite exec_loop, Hbb, exec_optimizer_block, H.
    rewrite exec_commit_move, exec_decide_move.
    change (branch_of (set_lastUpdateTime (in_millis inp) s)) with (branch_of s).
    rewrite Hbr. cbn. destruct (movingUp s); reflexivity.
  - rewrite log_loop, Hbb, log_optimizer_block, H, log_decide_move.
    change (branch_of (set_lastUpdateTime (in_millis inp) s)) with (branch_of s).
    rewrite Hbr, log_braking_block, Hb. cbn. auto 10.
  - intros H. rewrite exec_loop, Hbb, exec_optimizer_block, H. reflexivity.
Qed.

Lemma shipped_rpm_is_always_zero_witness :
  let inp := mkInputs 1000 LOW 500 in
  tick_due (in_millis inp) (exec braking_block (run [] init)) = true
  /\ movingUp (run [] init) = true
  /\ movingUp (exec (loop inp) (run [] init)) = false.
Proof.
  cbv zeta. split; [reflexivity|]. split; [reflexivity|].
  destruct (shipped_rpm_is_always_zero [] (mkInputs 1000 LOW 500))
    as (_ & _ & _ & _ & H & _).
  destruct (H eq_refl) as [Hm _]. exact Hm.
Defined.

(** ** Mechanical bounds *)

(** C3.  The actuator position is within [47, 71] at start-up, after the
    braking action, after every committed optimizer tick whatever the state
    it started from, after every iteration that starts within the bounds and
    so after any number of iterations and interrupts from such a state
    (whatever the decisions taken in them), and in every state the sketch
    reaches. *)
Theorem actuator_position_within_bounds :
  (actuatorMin = 47 /\ actuatorMax = 71)
  /\ 47 <= actuatorPosition init <= 71
  /\ (forall s, braking s = true ->
        47 <= actuatorPosition (exec braking_block s) <= 71)
  /\ (forall t s, tick_due t s = true ->
        47 <= actuatorPosition (exec (optimizer_block t) s) <= 71)
  /\ (forall inp s, 47 <= actuatorPosition s <= 71 ->
        47 <= actuatorPosition (exec (loop inp) s) <= 71)
  /\ (forall evs s, 47 <= actuatorPosition s <= 71 ->
        47 <= actuatorPosition (run evs s) <= 71)
  /\ (forall evs, 47 <= actuatorPosition (run evs init) <= 71).
Proof.
  split; [split; reflexivity|].
  split; [change (47 <= 56 <= 71); lia|].
  split.
  { intros s H. rewrite exec_braking_block, H. cbn. lia. }
  split.
  { intros t s H. rewrite exec_optimizer_block, H, exec_commit_move. cbn.
    apply clamp_range. }
  split.
  { intros inp s. apply position_preserved. }
  split; [apply position_run | apply position_reachable].
Qed.

Lemma actuator_position_within_bounds_witness :
  let s := set_rpm (F32.of_Z 2000) (set_actuatorPosition 71 init) in
  tick_due 1000 s = true
  /\ 47 <= actuatorPosition (exec (optimizer_block 1000) s) <= 71.
Proof.
  cbv zeta. split; [reflexivity|].
  destruct actuator_position_within_bounds as (_ & _ & _ & H & _).
  apply H. reflexivity.
Defined.

(** ** The interlock *)

(** C4, as the claim states it, fails: with the load disconnected (ADC
    reading 1023) and the e-stop input high, the should-stop condition of the
    commented-out interlock holds, yet the iteration neither brakes nor
    commands position 70, both flags stay false and the optimizer runs. *)
Lemma interlock_does_not_engage :
  let inp := mkInputs 1000 HIGH 1023 in
  wf_inputs inp
  /\ shouldStop (loadConnected_at (in_load inp)) (in_estop inp) = true
  /\ loadConnected_at (in_load inp) = false
  /\ braking (exec braking_block init) = false
  /\ ~ In (Println (Str "Braking")) (log (loop inp) init)
  /\ ~ In (ServoWrite 70) (log (loop inp) init)
  /\ braking (exec (loop inp) init) = false
  /\ estopEngaged (exec (loop inp) init) = false
  /\ actuatorPosition (exec (loop inp) init) = 55.
Proof.
  cbv zeta. split.
  { unfold wf_inputs, HIGH, LOW. cbn. lia. }
  vm_compute. repeat split; try reflexivity.
  all: intros H; repeat (destruct H as [H|H]; [discriminate H|]); exact H.
Qed.

(** C4, amended.  The interlock is inert in the sketch as shipped: the state
    an iteration leaves does not depend on the e-stop level or on the load
    reading (they are only printed); an iteration never sets [braking] or
    [estopEngaged] (it leaves [braking] false and can only clear
    [estopEngaged]); from a state with [braking] false it performs no braking
    action; and in every reachable state both flags are false. *)
Theorem interlock_is_inert :
  (forall t e1 l1 e2 l2 s,
      exec (loop (mkInputs t e1 l1)) s = exec (loop (mkInputs t e2 l2)) s)
  /\ (forall inp s,
        braking (exec (loop inp) s) = false
        /\ estopEngaged (exec (loop inp) s)
           = (if braking s then false else estopEngaged s))
  /\ (forall inp s, braking s = false ->
        exec braking_block s = s
        /\ ~ In (Println (Str "Braking")) (log (loop inp) s))
  /\ (forall evs,
        braking (run evs init) = false /\ estopEngaged (run evs init) = false).
Proof.
  split; [intros; rewrite !exec_loop; reflexivity|].
  split; [intros inp s; apply (loop_flags inp s)|].
  split.
  - intros inp s Hb. split.
    + rewrite exec_braking_block, Hb. reflexivity.
    + rewrite log_loop, log_braking_block, exec_braking_block, Hb.
      rewrite log_optimizer_block.
      destruct (tick_due (in_millis inp) s); cbn.
      * rewrite log_decide_move, log_commit_move.
        destruct (branch_of _); cbn; try destruct (movingUp s); cbn;
          intros H; repeat (destruct H as [H|H]; [discriminate H|]); exact H.
      * intros H; repeat (destruct H as [H|H]; [discriminate H|]); exact H.
  - intros evs. pose proof (shipped_invariant evs) as H. cbv zeta in H. tauto.
Qed.

Lemma interlock_is_inert_witness :
  braking init = false
  /\ exec braking_block init = init.
Proof.
  split; [reflexivity|].
  destruct interlock_is_inert as (_ & _ & H & _).
  destruct (H (mkInputs 1000 HIGH 1023) init eq_refl) as [H1 _]. exact H1.
Defined.

(** ** The optimizer *)

Lemma F32_eqb_not_gtb (a b : float) : F32.eqb a b = true -> F32.gtb a b = false.
Proof.
  unfold F32.eqb, F32.gtb, SFeqb, SFltb.
  destruct a as [sa|sa| |sa ma ea], b as [sb|sb| |sb mb eb]; cbn;
    try destruct sa; try destruct sb; try discriminate; try reflexivity.
  all: rewrite (Z.compare_antisym ea eb); destruct (ea ?= eb); cbn;
    try discriminate; try reflexivity.
  all: change (Pos.compare_cont Eq mb ma) with (Pos.compare mb ma);
    change (Pos.compare_cont Eq ma mb) with (Pos.compare ma mb);
    rewrite (Pos.compare_antisym ma mb);
    destruct (Pos.compare ma mb); cbn; try discriminate; reflexivity.
Qed.

Ltac not_in_log :=
  let H := fresh in
  intros H; repeat (destruct H as [H|H]; [discriminate H|]); exact H.

(** C5.  In an iteration whose optimizer runs with [rpm > maxShaftRPM]
    (1750), the overspeed branch is taken: the position becomes the prior
    position plus [stepSize], which is then bounded to [47, 71] and committed,
    and [movingUp] keeps its value; this holds for either value of [movingUp]
    and for any [lastRPM].  When [rpm] equals 1750 the comparison is false and
    the overspeed branch is not taken. *)
Theorem overspeed_always_steps_up (inp : inputs) (s0 : state) :
  let t := in_millis inp in
  let s := exec braking_block s0 in
  let s' := exec (loop inp) s0 in
  tick_due t s = true ->
  -32768 <= actuatorPosition s < 32767 ->
  (F32.gtb (rpm s) maxShaftRPM = true ->
     branch_of s = Overspeed
     /\ actuatorPosition (tentative t s) = actuatorPosition s + stepSize
     /\ movingUp (tentative t s) = movingUp s
     /\ actuatorPosition s' = clamp (actuatorPosition s + stepSize)
     /\ movingUp s' = movingUp s)
  /\ (F32.eqb (rpm s) maxShaftRPM = true ->
     F32.gtb (rpm s) maxShaftRPM = false
     /\ branch_of s <> Overspeed
     /\ ~ In (Println (Str "RPM too high, feathering blades."))
            (log (loop inp) s0)).
Proof.
  cbv zeta. intros Htick Hpos. split.
  - intros Hgt.
    assert (Hb : branch_of (exec braking_block s0) = Overspeed).
    { unfold branch_of. rewrite Hgt. reflexivity. }
    unfold tentative.
    rewrite exec_loop, exec_optimizer_block, Htick, exec_commit_move,
      exec_decide_move.
    change (branch_of (set_lastUpdateTime (in_millis inp) (exec braking_block s0)))
      with (branch_of (exec braking_block s0)).
    rewrite Hb, exec_step_up. cbn.
    rewrite wrap_int_id by (unfold stepSize; lia). auto.
  - intros Heq. pose proof (F32_eqb_not_gtb _ _ Heq) as Hgt.
    assert (Hb : branch_of (exec braking_block s0) <> Overspeed).
    { unfold branch_of. rewrite Hgt.
      destruct (F32.gtb _ (lastRPM _)); discriminate. }
    repeat split; try assumption.
    rewrite log_loop, log_braking_block, log_optimizer_block, Htick,
      log_decide_move, log_commit_move.
    change (branch_of (set_lastUpdateTime (in_millis inp) (exec braking_block s0)))
      with (branch_of (exec braking_block s0)).
    destruct (branch_of (exec braking_block s0)); [congruence| |];
      destruct (braking s0); cbn;
      destruct (movingUp _); cbn; not_in_log.
Qed.

Lemma overspeed_always_steps_up_witness :
  let inp := mkInputs 1000 LOW 500 in
  let s0 := set_movingUp false (set_rpm (F32.of_Z 2000) init) in
  tick_due 1000 (exec braking_block s0) = true
  /\ F32.gtb (rpm (exec braking_block s0)) maxShaftRPM = true
  /\ actuatorPosition (exec (loop inp) s0) = clamp (56 + stepSize).
Proof.
  cbv zeta. split; [reflexivity|]. split; [reflexivity|].
  assert (Hr : -32768 <= 56 < 32767) by lia.
  destruct (overspeed_always_steps_up (mkInputs 1000 LOW 500)
              (set_movingUp false (set_rpm (F32.of_Z 2000) init)) eq_refl Hr)
    as [H _].
  destruct (H eq_refl) as (_ & _ & _ & Hp & _). exact Hp.
Defined.

(** C6, as the claim states it, fails at the mechanical bounds.  At
    position 71 with [movingUp] true and [rpm] risen from 50 to 100 the
    improving branch steps to 72 and the bounding statements bring the
    position back: the tick commits 71.  At position 47 with [movingUp] true
    and [rpm] not risen the direction flips, the step goes to 46 and the tick
    commits 47. *)
Lemma step_is_bounded_at_limits :
  let inp := mkInputs 1000 LOW 500 in
  let s_up := set_actuatorPosition 71
                (set_lastRPM (F32.of_Z 50) (set_rpm (F32.of_Z 100) init)) in
  let s_down := set_actuatorPosition 47 init in
  (tick_due (in_millis inp) (exec braking_block s_up) = true
   /\ branch_of s_up = Improving /\ movingUp s_up = true
   /\ actuatorPosition (tentative (in_millis inp) s_up) = 72
   /\ actuatorPosition (exec (loop inp) s_up) = 71
   /\ actuatorPosition (exec (loop inp) s_up) <> actuatorPosition s_up + stepSize)
  /\ (tick_due (in_millis inp) (exec braking_block s_down) = true
      /\ branch_of s_down = NotImproving /\ movingUp s_down = true
      /\ movingUp (exec (loop inp) s_down) = false
      /\ actuatorPosition (tentative (in_millis inp) s_down) = 46
      /\ actuatorPosition (exec (loop inp) s_down) = 47
      /\ actuatorPosition (exec (loop inp) s_down) <> actuatorPosition s_down - stepSize).
Proof.
  vm_compute. repeat split; discriminate.
Qed.

(** C6, amended.  In an iteration whose optimizer runs without overspeed: if
    [rpm > lastRPM] the position is stepped by one [stepSize] in the recorded
    direction and [movingUp] is unchanged; otherwise [movingUp] flips and the
    position is stepped by one [stepSize] in the new direction.  The stepped
    position is bounded to [47, 71] before it is committed (it is committed
    as it is when it lies within the bounds), and [lastRPM] is then set to
    the current [rpm]. *)
Theorem hill_climb_step (inp : inputs) (s0 : state) :
  let t := in_millis inp in
  let s := exec braking_block s0 in
  let s' := exec (loop inp) s0 in
  tick_due t s = true ->
  F32.gtb (rpm s) maxShaftRPM = false ->
  -32768 < actuatorPosition s < 32767 ->
  (F32.gtb (rpm s) (lastRPM s) = true ->
     movingUp s' = movingUp s
     /\ actuatorPosition (tentative t s)
        = actuatorPosition s + (if movingUp s then stepSize else - stepSize))
  /\ (F32.gtb (rpm s) (lastRPM s) = false ->
     movingUp s' = negb (movingUp s)
     /\ actuatorPosition (tentative t s)
        = actuatorPosition s + (if negb (movingUp s) then stepSize else - stepSize))
  /\ actuatorPosition s' = clamp (actuatorPosition (tentative t s))
  /\ (47 <= actuatorPosition (tentative t s) <= 71 ->
      actuatorPosition s' = actuatorPosition (tentative t s))
  /\ lastRPM s' = rpm s.
Proof.
  cbv zeta. intros Htick Hover Hpos.
  set (s := exec braking_block s0) in *.
  assert (Hs' : exec (loop inp) s0
                = set_lastRPM (rpm (tentative (in_millis inp) s))
                    (set_actuatorPosition
                       (clamp (actuatorPosition (tentative (in_millis inp) s)))
                       (tentative (in_millis inp) s))).
  { rewrite exec_loop. fold s.
    rewrite exec_optimizer_block, Htick, exec_commit_move. reflexivity. }
  rewrite Hs'. unfold tentative. rewrite exec_decide_move.
  unfold branch_of. cbn [rpm lastRPM set_lastUpdateTime]. rewrite Hover.
  destruct (F32.gtb (rpm s) (lastRPM s)) eqn:Himp; cbv zeta.
  - destruct (movingUp s) eqn:Hmu; cbn [negb movingUp set_movingUp];
      rewrite ?exec_step_up, ?exec_step_down; cbn; rewrite ?Hmu;
      rewrite !wrap_int_id by (unfold stepSize; lia);
      repeat split; intros; try discriminate; try reflexivity;
      try exact Hmu; apply clamp_id; assumption.
  - destruct (movingUp s) eqn:Hmu; cbn [negb movingUp set_movingUp];
      rewrite ?exec_step_up, ?exec_step_down; cbn; rewrite ?Hmu;
      rewrite !wrap_int_id by (unfold stepSize; lia);
      repeat split; intros; try discriminate; try reflexivity;
      try exact Hmu; apply clamp_id; assumption.
Qed.

Lemma hill_climb_step_witness :
  let inp := mkInputs 1000 LOW 500 in
  let s0 := set_lastRPM (F32.of_Z 900) (set_rpm (F32.of_Z 1000) init) in
  tick_due 1000 (exec braking_block s0) = true
  /\ F32.gtb (rpm (exec braking_block s0)) maxShaftRPM = false
  /\ F32.gtb (rpm (exec braking_block s0)) (lastRPM (exec braking_block s0)) = true
  /\ lastRPM (exec (loop inp) s0) = F32.of_Z 1000.
Proof.
  cbv zeta. split; [reflexivity|]. split; [reflexivity|]. split; [reflexivity|].
  assert (Hr : -32768 < 56 < 32767) by lia.
  destruct (hill_climb_step (mkInputs 1000 LOW 500)
              (set_lastRPM (F32.of_Z 900) (set_rpm (F32.of_Z 1000) init))
              eq_refl eq_refl Hr)
    as (_ & _ & _ & _ & H).
  exact H.
Defined.

(** ** The braking state *)

(** C8.  When [braking] is true at the braking check, the iteration sets
    [actuatorPosition] to 70 (which is not [actuatorMax] = 71), writes 70 to
    the servo, and clears [braking] and [estopEngaged]; both are false when
    the iteration ends, and the next braking check does nothing. *)
Theorem braking_is_one_shot (inp : inputs) (s : state) :
  braking s = true ->
  let b := exec braking_block s in
  let s' := exec (loop inp) s in
  actuatorPosition b = 70 /\ 70 <> actuatorMax
  /\ log braking_block s
     = [Println (Str "Braking"); ServoWrite 70; Println (Int 70)]
  /\ In (ServoWrite 70) (log (loop inp) s)
  /\ braking b = false /\ estopEngaged b = false
  /\ braking s' = false /\ estopEngaged s' = false
  /\ exec braking_block s' = s' /\ log braking_block s' = [].
Proof.
  intros Hb. cbv zeta.
  pose proof (loop_flags inp s) as [Hb' He']. cbv zeta in *.
  rewrite Hb in He'.
  rewrite log_loop, exec_braking_block, !log_braking_block, Hb, Hb'.
  cbn. repeat split; auto 10.
  rewrite exec_braking_block, Hb'. reflexivity.
Qed.

Lemma braking_is_one_shot_witness :
  let s := set_estopEngaged true (set_braking true init) in
  braking s = true
  /\ actuatorPosition (exec braking_block s) = 70
  /\ braking (exec (loop (mkInputs 1000 LOW 500)) s) = false.
Proof.
  cbv zeta. split; [reflexivity|].
  destruct (braking_is_one_shot (mkInputs 1000 LOW 500)
              (set_estopEngaged true (set_braking true init)) eq_refl)
    as (H1 & _ & _ & _ & _ & _ & H2 & _).
  split; [exact H1 | exact H2].
Defined.

(** ** The load threshold *)

(** C9 (the code departs from the claim).  [loadConnected] is computed as
    [Vload < loadThreshold] with [Vload = (reading / 1024 * 5) / 0.3125], but
    [loadThreshold] is an [int] initialised with 11.90 and therefore holds 11.
    At the ADC reading 720 the load voltage is 11.25: below 11.90, yet
    [loadConnected] is false.  Over all ADC readings the code's test is
    [reading < 704], where a threshold of 11.90 would give [reading < 762]. *)
Theorem loadThreshold_is_truncated :
  loadThreshold = 11
  /\ Vload_of (Vmeasured_of (F32.of_Z 720)) = F32.dyadic 45 (-2)
  /\ loadConnected_at 720 = false
  /\ loadConnected_spec 720 = true
  /\ Forall (fun a => loadConnected_at a = (a <? 704)
                      /\ loadConnected_spec a = (a <? 762)) adc_readings.
Proof.
  split; [reflexivity|]. split; [vm_compute; reflexivity|].
  split; [vm_compute; reflexivity|]. split; [vm_compute; reflexivity|].
  apply List.Forall_forall. intros a Ha.
  assert (Hall : forallb (fun a => Bool.eqb (loadConnected_at a) (a <? 704)
                                   && Bool.eqb (loadConnected_spec a) (a <? 762))
                   adc_readings = true) by (vm_compute; reflexivity).
  rewrite forallb_forall in Hall. specialize (Hall a Ha).
  apply andb_true_iff in Hall as [H1 H2].
  apply Bool.eqb_prop in H1, H2. auto.
Qed.

(** ** The RPM estimator *)

Lemma exec_handleRPMUpdates (s : state) :
  exec handleRPMUpdates s =
  if pulseReceived s then
    let s1 := set_pulseReceived false s in
    if 0 <? pulseInterval s then
      let newRPM := newRPM_of (pulseInterval s) in
      if validRPM newRPM then
        let buf := <[Z.to_nat (sampleIndex s) := newRPM]> (rpmSamples s) in
        set_rpm (average buf)
          (set_sampleIndex (Z.rem (wrap_int (sampleIndex s + 1)) numSamples)
             (set_rpmSamples buf s1))
      else s1
    else s1
  else s.
Proof.
  unfold handleRPMUpdates. rewrite exec_bind. cbn [get fst].
  destruct (pulseReceived s); [|reflexivity].
  rewrite exec_bind. cbv zeta.
  destruct (0 <? pulseInterval s); [|reflexivity].
  destruct (validRPM (newRPM_of (pulseInterval s))); reflexivity.
Qed.

(** ** Single-precision rounding

    Facts on the rounding of [SpecFloat] at precision 24: the mantissa of a
    rounded value has 24 bits and its exponent follows from the number of bits
    of the value rounded. *)

Lemma digits2_pos_size (p : positive) : digits2_pos p = Pos.size p.
Proof. induction p; cbn; congruence. Qed.

Lemma Zdigits2_bounds (p : positive) :
  2 ^ (Zdigits2 (Zpos p) - 1) <= Zpos p < 2 ^ Zdigits2 (Zpos p).
Proof.
  cbn [Zdigits2]. rewrite digits2_pos_size.
  pose proof (Pos.size_gt p) as Hgt. pose proof (Pos.size_le p) as Hle.
  assert (H2 : Zpos (2 ^ Pos.size p) = 2 ^ Zpos (Pos.size p)).
  { rewrite Pos2Z.inj_pow. reflexivity. }
  split.
  - assert (2 ^ Zpos (Pos.size p) <= 2 * Zpos p) by (rewrite <- H2; exact Hle).
    replace (Zpos (Pos.size p)) with (Z.succ (Zpos (Pos.size p) - 1)) in H by lia.
    rewrite Z.pow_succ_r in H by lia. lia.
  - rewrite <- H2. exact Hgt.
Qed.

Lemma Zdigits2_unique (z k : Z) :
  2 ^ (k - 1) <= z < 2 ^ k -> 0 < k -> Zdigits2 z = k.
Proof.
  intros [Hlo Hhi] Hk.
  assert (Hz : 0 < z).
  { pose proof (Z.pow_pos_nonneg 2 (k - 1)). lia. }
  destruct z as [|p|p]; try lia.
  pose proof (Zdigits2_bounds p) as [Hl Hh].
  set (d := Zdigits2 (Zpos p)) in *.
  assert (Hd : 0 < d) by (unfold d; cbn; lia).
  destruct (Z.lt_trichotomy d k) as [Hlt|[Heq|Hgt]]; [|exact Heq|].
  - assert (2 ^ d <= 2 ^ (k - 1)) by (apply Z.pow_le_mono_r; lia). lia.
  - assert (2 ^ k <= 2 ^ (d - 1)) by (apply Z.pow_le_mono_r; lia). lia.
Qed.

Lemma shr_1_m (mrs : shr_record) :
  0 <= shr_m mrs -> shr_m (shr_1 mrs) = shr_m mrs / 2.
Proof.
  destruct mrs as [m r s]. cbn [shr_m]. intros Hm.
  destruct m as [|p|p]; [reflexivity| |lia].
  destruct p as [p|p|]; cbn [shr_1 shr_m].
  - rewrite Pos2Z.inj_xI. apply Z.div_unique with 1; lia.
  - rewrite Pos2Z.inj_xO. apply Z.div_unique with 0; lia.
  - reflexivity.
Qed.

Lemma iter_pos_shr_m (p : positive) (mrs : shr_record) :
  0 <= shr_m mrs ->
  shr_m (SpecFloat.iter_pos shr_1 p mrs) = shr_m mrs / 2 ^ Zpos p.
Proof.
  revert mrs. induction p as [p IH|p IH|]; intros mrs Hm; cbn [SpecFloat.iter_pos].
  - assert (H1 : 0 <= shr_m (shr_1 mrs)).
    { rewrite shr_1_m by assumption. apply Z.div_pos; lia. }
    assert (H2 : 0 <= shr_m (SpecFloat.iter_pos shr_1 p (shr_1 mrs))).
    { rewrite IH by assumption. apply Z.div_pos; [lia|]. apply Z.pow_pos_nonneg; lia. }
    rewrite IH, IH, shr_1_m by assumption.
    rewrite !Z.div_div by (try apply Z.pow_pos_nonneg; lia).
    f_equal. rewrite <- Z.pow_add_r, <- Z.pow_succ_r by lia. f_equal. lia.
  - assert (H2 : 0 <= shr_m (SpecFloat.iter_pos shr_1 p mrs)).
    { rewrite IH by assumption. apply Z.div_pos; [lia|]. apply Z.pow_pos_nonneg; lia. }
    rewrite IH, IH by assumption.
    rewrite !Z.div_div by (try apply Z.pow_pos_nonneg; lia).
    f_equal. rewrite <- Z.pow_add_r by lia. f_equal. lia.
  - apply shr_1_m. assumption.
Qed.

Lemma round_nearest_even_bounds (m : Z) (l : location) :
  m <= round_nearest_even m l <= m + 1.
Proof. destruct l as [|[]]; cbn; try destruct (Z.even m); lia. Qed.

Lemma shr_record_of_loc_m (m : Z) (l : location) :
  shr_m (shr_record_of_loc m l) = m.
Proof. destruct l as [|[]]; reflexivity. Qed.

Lemma fexp_normal (k : Z) : -125 <= k -> fexp 24 128 k = k - 24.
Proof. intros H. unfold fexp, emin. lia. Qed.

(** The normalisation that follows the rounding: a carry out of the 24 bits
    costs one more shift. *)
Lemma renormalise (s : bool) (m2 e1 : Z) :
  2 ^ 23 <= m2 <= 2 ^ 24 -> -149 <= e1 -> e1 + 1 <= 104 ->
  exists m' e',
    (let '(mrs'', e'') := shr_fexp 24 128 m2 e1 loc_Exact in
     match shr_m mrs'' with
     | Z0 => S754_zero s
     | Zpos m => if Z.leb e'' (128 - 24) then S754_finite s m e'' else S754_infinity s
     | Zneg _ => S754_nan
     end) = S754_finite s m' e'
    /\ (m2 < 2 ^ 24 -> e' = e1 /\ Zpos m' = m2)
    /\ (m2 = 2 ^ 24 -> e' = e1 + 1 /\ Zpos m' = 2 ^ 23).
Proof.
  intros Hm He1 He2. unfold shr_fexp.
  destruct (Z.eq_dec m2 (2 ^ 24)) as [Heq|Hne].
  - subst m2. change (Zdigits2 (2 ^ 24)) with 25.
    rewrite fexp_normal by lia.
    replace (25 + e1 - 24 - e1) with 1 by lia.
    change (2 ^ 24) with 16777216 at 1.
    cbn [shr shr_record_of_loc SpecFloat.iter_pos shr_1 shr_m].
    replace (e1 + 1 <=? 128 - 24) with true by (symmetry; apply Z.leb_le; lia).
    exists 8388608%positive, (e1 + 1). repeat split; lia.
  - assert (Hd : Zdigits2 m2 = 24) by (apply Zdigits2_unique; lia).
    rewrite Hd, fexp_normal by lia.
    replace (24 + e1 - 24 - e1) with 0 by lia.
    cbn [shr shr_record_of_loc shr_m].
    destruct m2 as [|p|p]; try lia.
    replace (e1 <=? 128 - 24) with true by (symmetry; apply Z.leb_le; lia).
    exists p, e1. repeat split; lia.
Qed.

(** Rounding a positive integer [mx] of [d >= 24] bits, scaled by [2^ex],
    away from underflow and overflow: the [d - 24] low bits are shifted out,
    the mantissa is the quotient or its successor, and a carry out of the 24
    bits gives the mantissa [2^23] with the next exponent. *)
Lemma binary_round_aux_normal (s : bool) (mx ex : Z) (lx : location) (d : Z) :
  0 < mx -> Zdigits2 mx = d -> 24 <= d ->
  -149 <= ex + (d - 24) -> ex + (d - 24) + 1 <= 104 ->
  exists m' e',
    binary_round_aux 24 128 s mx ex lx = S754_finite s m' e'
    /\ ((e' = ex + (d - 24)
         /\ mx / 2 ^ (d - 24) <= Zpos m' <= mx / 2 ^ (d - 24) + 1
         /\ Zpos m' < 2 ^ 24)
        \/ (e' = ex + (d - 24) + 1 /\ Zpos m' = 2 ^ 23
            /\ mx / 2 ^ (d - 24) = 2 ^ 24 - 1)).
Proof.
  intros Hpos Hd Hd24 Hlo Hhi.
  destruct mx as [|p|p]; try lia.
  pose proof (Zdigits2_bounds p) as Hb. rewrite Hd in Hb.
  unfold binary_round_aux.
  unfold shr_fexp at 1. rewrite Hd, fexp_normal by lia.
  replace (d + ex - 24 - ex) with (d - 24) by lia.
  assert (Hpow : 2 ^ (d - 1) = 2 ^ 23 * 2 ^ (d - 24) /\ 2 ^ d = 2 ^ 24 * 2 ^ (d - 24)).
  { rewrite <- !Z.pow_add_r by lia. split; f_equal; lia. }
  destruct Hpow as [Hp1 Hp2].
  assert (Hpn : 0 < 2 ^ (d - 24)) by (apply Z.pow_pos_nonneg; lia).
  assert (Hm1b : 2 ^ 23 <= Zpos p / 2 ^ (d - 24) < 2 ^ 24).
  { split.
    - apply Z.div_le_lower_bound; lia.
    - apply Z.div_lt_upper_bound; lia. }
  destruct (d - 24) as [|n|n] eqn:Hn; try lia.
  - cbn [shr]. rewrite shr_record_of_loc_m.
    change (2 ^ 0) with 1 in *. rewrite Z.div_1_r in *.
    set (m2 := round_nearest_even (Zpos p) _).
    assert (Hm2 : Zpos p <= m2 <= Zpos p + 1) by apply round_nearest_even_bounds.
    destruct (renormalise s m2 ex) as (m' & e' & Heq & Hsmall & Hcarry);
      try lia.
    exists m', e'. rewrite Heq. split; [reflexivity|].
    destruct (Z.eq_dec m2 (2 ^ 24)) as [Hc|Hc].
    + right. destruct (Hcarry Hc). lia.
    + left. destruct Hsmall; lia.
  - cbn [shr].
    set (mrs := SpecFloat.iter_pos shr_1 n (shr_record_of_loc (Zpos p) lx)).
    assert (Hm1 : shr_m mrs = Zpos p / 2 ^ Zpos n).
    { unfold mrs. rewrite iter_pos_shr_m; rewrite shr_record_of_loc_m; [reflexivity|lia]. }
    rewrite <- Hm1 in *.
    set (m2 := round_nearest_even (shr_m mrs) _).
    assert (Hm2 : shr_m mrs <= m2 <= shr_m mrs + 1) by apply round_nearest_even_bounds.
    destruct (renormalise s m2 (ex + Zpos n)) as (m' & e' & Heq & Hsmall & Hcarry);
      try lia.
    exists m', e'. rewrite Heq. split; [reflexivity|].
    destruct (Z.eq_dec m2 (2 ^ 24)) as [Hc|Hc].
    + right. destruct (Hcarry Hc). lia.
    + left. destruct Hsmall; lia.
Qed.

(** A value that already has a 24-bit mantissa is left as it is. *)
Lemma binary_round_aux_exact (s : bool) (m : positive) (e : Z) :
  2 ^ 23 <= Zpos m < 2 ^ 24 -> -149 <= e <= 104 ->
  binary_round_aux 24 128 s (Zpos m) e loc_Exact = S754_finite s m e.
Proof.
  intros Hm He. unfold binary_round_aux, shr_fexp.
  rewrite (Zdigits2_unique (Zpos m) 24) by lia.
  rewrite fexp_normal by lia.
  replace (24 + e - 24 - e) with 0 by lia.
  cbn [shr shr_record_of_loc shr_m loc_of_shr_record round_nearest_even].
  rewrite (Zdigits2_unique (Zpos m) 24) by lia.
  rewrite fexp_normal by lia.
  replace (24 + e - 24 - e) with 0 by lia.
  cbn [shr shr_record_of_loc shr_m].
  replace (e <=? 128 - 24) with true by (symmetry; apply Z.leb_le; lia).
  reflexivity.
Qed.

Lemma Pos_iter_xO (p k : positive) : Zpos (Pos.iter xO p k) = Zpos p * 2 ^ Zpos k.
Proof.
  induction k as [|k IH] using Pos.peano_ind.
  - cbn [Pos.iter]. rewrite Pos2Z.inj_xO. change (2 ^ 1) with 2. lia.
  - rewrite Pos.iter_succ, Pos2Z.inj_xO, IH, Pos2Z.inj_succ, Z.pow_succ_r by lia.
    lia.
Qed.

(** The conversion of a positive integer of [d] bits is a normal number of
    exponent [d - 24], or [d - 23] when the rounding carries. *)
Lemma of_Z_normal (i d : Z) :
  0 < i -> Zdigits2 i = d -> d <= 127 ->
  exists m e,
    F32.of_Z i = S754_finite false m e
    /\ 2 ^ 23 <= Zpos m < 2 ^ 24
    /\ d - 24 <= e <= d - 23.
Proof.
  intros Hi Hd Hd127. destruct i as [|p|p]; try lia.
  pose proof (Zdigits2_bounds p) as Hb. rewrite Hd in Hb.
  assert (Hd1 : 1 <= d) by (subst d; cbn; lia).
  unfold F32.of_Z, F32.prec, F32.emax, binary_normalize, binary_round.
  change (Zpos (digits2_pos p)) with (Zdigits2 (Zpos p)). rewrite Hd.
  rewrite fexp_normal by lia. unfold shl_align.
  replace (d + 0 - 24) with (d - 24) by lia. rewrite Z.sub_0_r.
  assert (Hbig : 24 <= d ->
            exists m e,
              binary_round_aux 24 128 false (Zpos p) 0 loc_Exact
              = S754_finite false m e
              /\ 2 ^ 23 <= Zpos m < 2 ^ 24 /\ d - 24 <= e <= d - 23).
  { intros H24.
    destruct (binary_round_aux_normal false (Zpos p) 0 loc_Exact d)
      as (m & e & Heq & Hcases); try lia.
    assert (Hpn : 0 < 2 ^ (d - 24)) by (apply Z.pow_pos_nonneg; lia).
    assert (2 ^ 23 <= Zpos p / 2 ^ (d - 24)).
    { apply Z.div_le_lower_bound; [lia|].
      replace (2 ^ (d - 24) * 2 ^ 23) with (2 ^ (d - 1)); [lia|].
      rewrite <- Z.pow_add_r by lia. f_equal. lia. }
    exists m, e. split; [exact Heq|]. destruct Hcases as [Hc|Hc]; lia. }
  destruct (d - 24) as [|n|k] eqn:Hn.
  - apply Hbig. lia.
  - apply Hbig. lia.
  - assert (Hpow : 2 ^ 23 = 2 ^ (d - 1) * 2 ^ Zpos k /\ 2 ^ 24 = 2 ^ d * 2 ^ Zpos k).
    { rewrite <- !Z.pow_add_r by lia. split; f_equal; lia. }
    destruct Hpow as [Hp1 Hp2].
    assert (Hpk : 0 < 2 ^ Zpos k) by (apply Z.pow_pos_nonneg; lia).
    assert (Hmz : 2 ^ 23 <= Zpos (Pos.iter xO p k) < 2 ^ 24).
    { rewrite Pos_iter_xO, Hp1, Hp2. split.
      - apply Z.mul_le_mono_nonneg_r; lia.
      - apply Z.mul_lt_mono_pos_r; lia. }
    rewrite binary_round_aux_exact by lia.
    exists (Pos.iter xO p k), (Zneg k). repeat split; lia.
Qed.

(** Integers of at most 24 bits are converted exactly. *)
Lemma of_Z_exact (i d : Z) :
  0 < i -> Zdigits2 i = d -> d <= 24 ->
  exists m,
    F32.of_Z i = S754_finite false m (d - 24)
    /\ Zpos m = i * 2 ^ (24 - d)
    /\ 2 ^ 23 <= Zpos m < 2 ^ 24.
Proof.
  intros Hi Hd Hd24. destruct i as [|p|p]; try lia.
  pose proof (Zdigits2_bounds p) as Hb. rewrite Hd in Hb.
  assert (Hd1 : 1 <= d) by (subst d; cbn; lia).
  unfold F32.of_Z, F32.prec, F32.emax, binary_normalize, binary_round.
  change (Zpos (digits2_pos p)) with (Zdigits2 (Zpos p)). rewrite Hd.
  rewrite fexp_normal by lia. unfold shl_align.
  replace (d + 0 - 24) with (d - 24) by lia. rewrite Z.sub_0_r.
  destruct (d - 24) as [|n|k] eqn:Hn; try lia.
  - assert (Hd' : d = 24) by lia. rewrite Hd' in *.
    change (24 - 1) with 23 in Hb.
    rewrite binary_round_aux_exact by lia.
    exists p. split; [reflexivity|]. split; [|exact Hb].
    change (2 ^ (24 - 24)) with 1. lia.
  - assert (Hk : 24 - d = Zpos k) by lia.
    assert (Hpow : 2 ^ 23 = 2 ^ (d - 1) * 2 ^ Zpos k /\ 2 ^ 24 = 2 ^ d * 2 ^ Zpos k).
    { rewrite <- !Z.pow_add_r by lia. split; f_equal; lia. }
    destruct Hpow as [Hp1 Hp2].
    assert (Hpk : 0 < 2 ^ Zpos k) by (apply Z.pow_pos_nonneg; lia).
    assert (Hmz : 2 ^ 23 <= Zpos (Pos.iter xO p k) < 2 ^ 24).
    { rewrite Pos_iter_xO, Hp1, Hp2. split.
      - apply Z.mul_le_mono_nonneg_r; lia.
      - apply Z.mul_lt_mono_pos_r; lia. }
    rewrite binary_round_aux_exact by lia.
    exists (Pos.iter xO p k). split; [reflexivity|]. split; [|exact Hmz].
    rewrite Pos_iter_xO, Hk. reflexivity.
Qed.

(** The quotient of 60000000 by a normal number [my * 2^ey]: with [q] the
    integer quotient of [15000000 * 2^24] by [my], the result has the
    mantissa [q] or [q / 2], up to the rounding, and the matching exponent. *)
Lemma div_60000000_normal (my : positive) (ey : Z) :
  2 ^ 23 <= Zpos my < 2 ^ 24 -> -100 <= ey <= 100 ->
  exists m e,
    F32.div lit_60000000 (S754_finite false my ey) = S754_finite false m e
    /\ let q := 251658240000000 / Zpos my in
       15000000 <= q <= 30000000
       /\ (q < 2 ^ 24 ->
           (e = -22 - ey /\ q <= Zpos m <= q + 1)
           \/ (e = -21 - ey /\ Zpos m = 2 ^ 23 /\ q = 2 ^ 24 - 1))
       /\ (2 ^ 24 <= q -> e = -21 - ey /\ q / 2 <= Zpos m <= q / 2 + 1).
Proof.
  intros Hmy Hey.
  change lit_60000000 with (S754_finite false 15000000 2).
  unfold F32.div, F32.prec, F32.emax, SFdiv, SFdiv_core_binary.
  change (Zdigits2 15000000) with 24.
  rewrite (Zdigits2_unique (Zpos my) 24) by lia.
  rewrite fexp_normal by lia.
  replace (Z.min (24 + 2 - (24 + ey) - 24) (2 - ey)) with (-22 - ey) by lia.
  replace (2 - ey - (-22 - ey)) with 24 by lia.
  change (Z.shiftl 15000000 24) with 251658240000000.
  assert (Hq : 15000000 <= 251658240000000 / Zpos my <= 30000000).
  { split.
    - apply Z.div_le_lower_bound; lia.
    - assert (251658240000000 / Zpos my < 30000001); [|lia].
      apply Z.div_lt_upper_bound; lia. }
  unfold Z.div in *.
  destruct (Z.div_eucl 251658240000000 (Zpos my)) as [q r].
  cbn [fst] in *. cbn [xorb]. cbv zeta.
  destruct (Z_lt_le_dec q (2 ^ 24)) as [Hlt|Hge].
  - destruct (binary_round_aux_normal false q (-22 - ey)
                (new_location (Zpos my) r) 24)
      as (m & e & Heq & Hcases); try lia.
    { apply Zdigits2_unique; lia. }
    exists m, e. rewrite Heq. split; [reflexivity|]. split; [exact Hq|].
    replace (24 - 24) with 0 in Hcases by lia.
    change (2 ^ 0) with 1 in Hcases.
    change (let (q0, _) := Z.div_eucl q 1 in q0) with (q / 1) in Hcases.
    rewrite Z.div_1_r in Hcases.
    split; [|lia]. intros _. destruct Hcases as [Hc|Hc]; [left|right]; lia.
  - destruct (binary_round_aux_normal false q (-22 - ey)
                (new_location (Zpos my) r) 25)
      as (m & e & Heq & Hcases); try lia.
    { apply Zdigits2_unique; lia. }
    exists m, e. rewrite Heq. split; [reflexivity|]. split; [exact Hq|].
    replace (25 - 24) with 1 in Hcases by lia.
    change (2 ^ 1) with 2 in Hcases.
    change (let (q0, _) := Z.div_eucl q 2 in q0) with (q / 2) in *.
    split; [lia|]. intros _.
    assert (q / 2 <= 15000000).
    { assert (q / 2 < 15000001); [|lia]. apply Z.div_lt_upper_bound; lia. }
    destruct Hcases as [Hc|Hc]; lia.
Qed.

Lemma compare_cont_Eq (p q : positive) :
  Pos.compare_cont Eq p q = Z.compare (Zpos p) (Zpos q).
Proof. reflexivity. Qed.

(** The sanity check on a positive finite value: below 5000, that is below
    [10240000 * 2^-11]. *)
Lemma validRPM_finite (m : positive) (e : Z) :
  validRPM (S754_finite false m e)
  = (e <? -11) || ((e =? -11) && (Zpos m <? 10240000)).
Proof.
  unfold validRPM, F32.gtb, F32.ltb, SFltb.
  change maxValidRPM with (S754_finite false 10240000 (-11)).
  cbn [minValidRPM F32.zero SFcompare andb].
  rewrite compare_cont_Eq.
  destruct (Z.compare_spec e (-11)) as [He|He|He].
  - replace (e <? -11) with false by (symmetry; apply Z.ltb_ge; lia).
    replace (e =? -11) with true by (symmetry; apply Z.eqb_eq; lia).
    cbn [orb andb]. unfold Z.ltb.
    destruct (Zpos m ?= 10240000); reflexivity.
  - replace (e <? -11) with true by (symmetry; apply Z.ltb_lt; lia).
    reflexivity.
  - replace (e <? -11) with false by (symmetry; apply Z.ltb_ge; lia).
    replace (e =? -11) with false by (symmetry; apply Z.eqb_neq; lia).
    reflexivity.
Qed.

Lemma Zdigits2_range (i lo hi : Z) :
  0 < lo -> 2 ^ (lo - 1) <= i < 2 ^ hi -> lo <= Zdigits2 i <= hi.
Proof.
  intros Hlo Hi.
  assert (0 < 2 ^ (lo - 1)) by (apply Z.pow_pos_nonneg; lia).
  destruct i as [|p|p]; try lia.
  pose proof (Zdigits2_bounds p) as Hb.
  set (d := Zdigits2 (Zpos p)) in *.
  assert (Hd : 1 <= d) by (unfold d; cbn; lia).
  split.
  - destruct (Z_lt_le_dec d lo) as [H1|H1]; [|lia].
    assert (2 ^ d <= 2 ^ (lo - 1)) by (apply Z.pow_le_mono_r; lia). lia.
  - destruct (Z_lt_le_dec hi d) as [H1|H1]; [|lia].
    assert (2 ^ hi <= 2 ^ (d - 1)) by (apply Z.pow_le_mono_r; lia). lia.
Qed.

(** Intervals from 16384 microseconds on give a valid RPM. *)
Lemma validRPM_large (i : Z) :
  16384 <= i < 4294967296 -> validRPM (newRPM_of i) = true.
Proof.
  intros Hi.
  assert (Hd : 15 <= Zdigits2 i <= 32) by (apply Zdigits2_range; lia).
  destruct (of_Z_normal i (Zdigits2 i)) as (my & ey & Hy & Hmy & Hey);
    try lia.
  destruct (div_60000000_normal my ey) as (m & e & Hv & Hq & Hsmall & Hbig);
    try lia.
  unfold newRPM_of. rewrite Hy, Hv, validRPM_finite.
  assert (He : e <= -12).
  { destruct (Z_lt_le_dec (251658240000000 / Zpos my) (2 ^ 24)) as [H|H].
    - destruct (Hsmall H); lia.
    - destruct (Hbig H); lia. }
  replace (e <? -11) with true by (symmetry; apply Z.ltb_lt; lia).
  reflexivity.
Qed.

(** Between 8192 and 16383 microseconds the check passes from 12001 on. *)
Lemma validRPM_mid (i : Z) :
  8192 <= i < 16384 -> validRPM (newRPM_of i) = (12000 <? i).
Proof.
  intros Hi.
  assert (Hd : Zdigits2 i = 14) by (apply Zdigits2_unique; lia).
  destruct (of_Z_exact i 14) as (my & Hy & Hmy & Hmyb); try lia.
  change (2 ^ (24 - 14)) with 1024 in Hmy.
  destruct (div_60000000_normal my (14 - 24)) as (m & e & Hv & Hq & Hsmall & Hbig);
    try lia.
  unfold newRPM_of. rewrite Hy, Hv, validRPM_finite.
  set (q := 251658240000000 / Zpos my) in *.
  destruct (Z_lt_le_dec 12000 i) as [Hacc|Hrej].
  - replace (12000 <? i) with true by (symmetry; apply Z.ltb_lt; lia).
    assert (Hqu : q < 20478294) by (apply Z.div_lt_upper_bound; lia).
    destruct (Z_lt_le_dec q (2 ^ 24)) as [H|H].
    + destruct (Hsmall H) as [[He Hm]|(He & Hm & _)].
      * replace (e <? -11) with true by (symmetry; apply Z.ltb_lt; lia).
        reflexivity.
      * replace (e =? -11) with true by (symmetry; apply Z.eqb_eq; lia).
        replace (Zpos m <? 10240000) with true by (symmetry; apply Z.ltb_lt; lia).
        apply orb_true_r.
    + destruct (Hbig H) as [He Hm].
      assert (q / 2 < 10239147) by (apply Z.div_lt_upper_bound; lia).
      replace (e =? -11) with true by (symmetry; apply Z.eqb_eq; lia).
      replace (Zpos m <? 10240000) with true by (symmetry; apply Z.ltb_lt; lia).
      apply orb_true_r.
  - replace (12000 <? i) with false by (symmetry; apply Z.ltb_ge; lia).
    assert (Hql : 20480000 <= q) by (apply Z.div_le_lower_bound; lia).
    destruct (Hbig ltac:(lia)) as [He Hm].
    assert (10240000 <= q / 2) by (apply Z.div_le_lower_bound; lia).
    replace (e <? -11) with false by (symmetry; apply Z.ltb_ge; lia).
    replace (Zpos m <? 10240000) with false by (symmetry; apply Z.ltb_ge; lia).
    rewrite andb_false_r. reflexivity.
Qed.

(** Below 8192 microseconds the check fails. *)
Lemma validRPM_tiny (i : Z) :
  0 < i < 8192 -> validRPM (newRPM_of i) = false.
Proof.
  intros Hi.
  assert (Hd : 1 <= Zdigits2 i <= 13) by (apply Zdigits2_range; lia).
  destruct (of_Z_exact i (Zdigits2 i)) as (my & Hy & Hmy & Hmyb); try lia.
  destruct (div_60000000_normal my (Zdigits2 i - 24))
    as (m & e & Hv & Hq & Hsmall & Hbig); try lia.
  unfold newRPM_of. rewrite Hy, Hv, validRPM_finite.
  set (q := 251658240000000 / Zpos my) in *.
  destruct (Z_lt_le_dec q (2 ^ 24)) as [H|H].
  - destruct (Hsmall H) as [[He Hm]|(He & Hm & _)].
    + replace (e <? -11) with false by (symmetry; apply Z.ltb_ge; lia).
      replace (Zpos m <? 10240000) with false by (symmetry; apply Z.ltb_ge; lia).
      rewrite andb_false_r. reflexivity.
    + replace (e <? -11) with false by (symmetry; apply Z.ltb_ge; lia).
      replace (e =? -11) with false by (symmetry; apply Z.eqb_neq; lia).
      reflexivity.
  - destruct (Hbig H) as [He Hm].
    replace (e <? -11) with false by (symmetry; apply Z.ltb_ge; lia).
    replace (e =? -11) with false by (symmetry; apply Z.eqb_neq; lia).
    reflexivity.
Qed.

(** The sanity check admits exactly the intervals above 12000 microseconds,
    those for which 60,000,000 / i lies strictly between 0 and 5000. *)
Lemma validRPM_iff (i : Z) :
  0 < i < 4294967296 -> validRPM (newRPM_of i) = (12000 <? i).
Proof.
  intros Hi. destruct (Z_lt_le_dec i 8192) as [Hs|Hl].
  - rewrite validRPM_tiny by lia. symmetry. apply Z.ltb_ge. lia.
  - destruct (Z_lt_le_dec i 16384) as [Hm|Hb].
    + apply validRPM_mid. lia.
    + rewrite validRPM_large by lia. symmetry. apply Z.ltb_lt. lia.
Qed.

(** For the admitted intervals of at most 24 bits the value computed is
    within one unit in the last place of 60,000,000 / i: with the result
    [m * 2^e], [(m - 1) * 2^e <= 60,000,000 / i <= (m + 1) * 2^e]. *)
Lemma newRPM_accuracy (i : Z) :
  12000 < i < 2 ^ 24 ->
  exists m e,
    newRPM_of i = S754_finite false m e
    /\ e <= -11
    /\ (Zpos m - 1) * i <= 60000000 * 2 ^ (- e) <= (Zpos m + 1) * i.
Proof.
  intros Hi.
  assert (Hd : 14 <= Zdigits2 i <= 24) by (apply Zdigits2_range; lia).
  set (d := Zdigits2 i) in *.
  destruct (of_Z_exact i d) as (my & Hy & Hmy & Hmyb); try lia.
  destruct (div_60000000_normal my (d - 24))
    as (m & e & Hv & Hq & Hsmall & Hbig); try lia.
  exists m, e. unfold newRPM_of. rewrite Hy. split; [exact Hv|].
  set (q := 251658240000000 / Zpos my) in *.
  assert (Hlow : Zpos my * q <= 251658240000000)
    by (apply Z.mul_div_le; lia).
  assert (Hupp : 251658240000000 < Zpos my * Z.succ q)
    by (apply Z.mul_succ_div_gt; lia).
  set (P := 2 ^ (24 - d)) in *.
  assert (HP : 0 < P) by (apply Z.pow_pos_nonneg; lia).
  set (Q := 2 ^ (21 - (24 - d))).
  assert (HQ : 0 < Q) by (apply Z.pow_pos_nonneg; lia).
  assert (HQP : Q * P = 2097152).
  { unfold Q, P. rewrite <- Z.pow_add_r by lia.
    replace (21 - (24 - d) + (24 - d)) with 21 by lia. reflexivity. }
  assert (Hcore : i * q <= 120000000 * Q < i * (q + 1)).
  { rewrite Hmy in Hlow, Hupp. split.
    - apply Z.mul_le_mono_pos_r with P; [exact HP|]. nia.
    - apply Z.mul_lt_mono_pos_r with P; [exact HP|]. nia. }
  assert (Hq2 : 2 * (q / 2) <= q <= 2 * (q / 2) + 1).
  { pose proof (Z.div_mod q 2 ltac:(lia)).
    pose proof (Z.mod_pos_bound q 2 ltac:(lia)). lia. }
  clear Hlow Hupp HQP Hmy Hmyb Hy Hv.
  destruct (Z_lt_le_dec q (2 ^ 24)) as [H|H].
  - destruct (Hsmall H) as [[He Hm]|(He & Hm & Hq24)].
    + split; [lia|].
      replace (- e) with (Z.succ (21 - (24 - d))) by lia.
      rewrite Z.pow_succ_r by lia. fold Q.
      assert ((Zpos m - 1) * i <= q * i)
        by (apply Z.mul_le_mono_nonneg_r; lia).
      assert ((q + 1) * i <= (Zpos m + 1) * i)
        by (apply Z.mul_le_mono_nonneg_r; lia).
      lia.
    + split; [lia|].
      replace (- e) with (21 - (24 - d)) by lia. fold Q.
      rewrite Hm, Hq24 in *. lia.
  - destruct (Hbig H) as [He Hm]. split; [lia|].
    replace (- e) with (21 - (24 - d)) by lia. fold Q.
    assert ((Zpos m - 1) * i <= q / 2 * i)
      by (apply Z.mul_le_mono_nonneg_r; lia).
    assert ((q / 2 + 1) * i <= (Zpos m + 1) * i)
      by (apply Z.mul_le_mono_nonneg_r; lia).
    assert (2 * (q / 2) * i <= q * i)
      by (apply Z.mul_le_mono_nonneg_r; lia).
    assert ((q + 1) * i <= (2 * (q / 2) + 2) * i)
      by (apply Z.mul_le_mono_nonneg_r; lia).
    lia.
Qed.

(** ** The sample buffer *)

Lemma log_handleRPMUpdates_rejected (s : state) :
  pulseReceived s = true -> 0 < pulseInterval s ->
  validRPM (newRPM_of (pulseInterval s)) = false ->
  log handleRPMUpdates s = [Println (Str "Ignored bad RPM reading")].
Proof.
  intros Hp Hi Hv. unfold handleRPMUpdates. rewrite log_bind. cbn [get fst].
  rewrite Hp, log_bind. cbv zeta.
  replace (0 <? pulseInterval s) with true by (symmetry; apply Z.ltb_lt; lia).
  rewrite Hv. reflexivity.
Qed.

Lemma next_sampleIndex (k : Z) :
  0 <= k < 10 -> Z.rem (wrap_int (k + 1)) numSamples = (k + 1) mod 10.
Proof.
  intros Hk. rewrite wrap_int_id by lia. unfold numSamples.
  apply Z.rem_mod_nonneg; lia.
Qed.

(** C7, as the claim states it, fails: the value computed is a [float].  For
    the interval 34286 the sample is admitted and stored, and its value is
    14335881 / 8192 = 1749.9854736328125, which is not 60,000,000 / 34286. *)
Lemma newRPM_is_rounded :
  let s := exec (pulseISR 34286) init in
  let s' := exec handleRPMUpdates s in
  pulseInterval s = 34286
  /\ validRPM (newRPM_of 34286) = true
  /\ rpmSamples s' !! 0%nat = Some (newRPM_of 34286)
  /\ F32.to_Q (newRPM_of 34286) = Some (14335881 # 8192)%Q
  /\ ~ (14335881 # 8192 == 60000000 # 34286)%Q.
Proof.
  cbv zeta. split; [reflexivity|]. split; [vm_compute; reflexivity|].
  split; [vm_compute; reflexivity|]. split; [vm_compute; reflexivity|].
  unfold Qeq. cbn. discriminate.
Qed.

(** C7, amended.  For a pending pulse with interval [i], [0 < i < 2^32], the
    instantaneous RPM is the single-precision quotient of 60000000 by [i],
    that is 60,000,000 / i rounded to [float]: for an admitted interval of at
    most 24 bits the value [m * 2^e] computed is within one unit in the last
    place of the exact quotient.  It passes the sanity check if and
    only if [12000 < i], that is if and only if the exact 60,000,000 / i lies
    strictly between 0 and 5000.  An admitted sample is written at the cursor,
    the other slots keep their values, the cursor advances modulo 10 and
    [rpm] becomes the average of the buffer; a rejected sample leaves the
    buffer, the cursor and [rpm] unchanged.  Either way the pulse is
    consumed. *)
Theorem handleRPMUpdates_admits_valid_samples (s : state) :
  let i := pulseInterval s in
  let newRPM := newRPM_of i in
  let s' := exec handleRPMUpdates s in
  pulseReceived s = true -> 0 < i < 4294967296 ->
  0 <= sampleIndex s < 10 -> length (rpmSamples s) = 10%nat ->
  newRPM = F32.div (F32.of_Z 60000000) (F32.of_Z i)
  /\ (12000 < i < 2 ^ 24 ->
      exists m e,
        newRPM = S754_finite false m e /\ e <= -11
        /\ (Zpos m - 1) * i <= 60000000 * 2 ^ (- e) <= (Zpos m + 1) * i)
  /\ (validRPM newRPM = true <-> 12000 < i)
  /\ (12000 < i <-> 0 * i < 60000000 < 5000 * i)
  /\ (12000 < i ->
      rpmSamples s' = <[Z.to_nat (sampleIndex s) := newRPM]> (rpmSamples s)
      /\ rpmSamples s' !! Z.to_nat (sampleIndex s) = Some newRPM
      /\ (forall k, k <> Z.to_nat (sampleIndex s) ->
                    rpmSamples s' !! k = rpmSamples s !! k)
      /\ length (rpmSamples s') = 10%nat
      /\ sampleIndex s' = (sampleIndex s + 1) mod 10
      /\ rpm s' = average (rpmSamples s'))
  /\ (i <= 12000 ->
      rpmSamples s' = rpmSamples s /\ sampleIndex s' = sampleIndex s
      /\ rpm s' = rpm s
      /\ log handleRPMUpdates s = [Println (Str "Ignored bad RPM reading")])
  /\ pulseReceived s' = false.
Proof.
  cbv zeta. intros Hp Hi Hk Hlen.
  pose proof (validRPM_iff (pulseInterval s) Hi) as Hv.
  split; [reflexivity|].
  split; [apply newRPM_accuracy|].
  split.
  { rewrite Hv. apply Z.ltb_lt. }
  split; [lia|].
  rewrite exec_handleRPMUpdates, Hp. cbv zeta.
  replace (0 <? pulseInterval s) with true by (symmetry; apply Z.ltb_lt; lia).
  split; [|split].
  - intros Hacc.
    replace (validRPM (newRPM_of (pulseInterval s))) with true
      by (rewrite Hv; symmetry; apply Z.ltb_lt; lia).
    cbn [rpmSamples sampleIndex rpm set_rpm set_sampleIndex set_rpmSamples
           set_pulseReceived].
    split; [reflexivity|]. split.
    { apply list_lookup_insert_eq. lia. }
    split.
    { intros k Hne. apply list_lookup_insert_ne. congruence. }
    split.
    { rewrite length_insert. exact Hlen. }
    split; [apply next_sampleIndex; exact Hk | reflexivity].
  - intros Hrej.
    assert (Hf : validRPM (newRPM_of (pulseInterval s)) = false)
      by (rewrite Hv; apply Z.ltb_ge; lia).
    rewrite Hf. repeat split.
    apply log_handleRPMUpdates_rejected; [assumption|lia|assumption].
  - destruct (validRPM (newRPM_of (pulseInterval s))); reflexivity.
Qed.

Lemma handleRPMUpdates_admits_valid_samples_witness :
  let s := exec (pulseISR 40000) init in
  pulseReceived s = true /\ pulseInterval s = 40000
  /\ sampleIndex (exec handleRPMUpdates s) = 1
  /\ rpm (exec handleRPMUpdates s) = average (rpmSamples (exec handleRPMUpdates s)).
Proof.
  cbv zeta. split; [reflexivity|]. split; [reflexivity|].
  assert (Hi : 0 < 40000 < 4294967296) by lia.
  assert (Hk : 0 <= 0 < 10) by lia.
  destruct (handleRPMUpdates_admits_valid_samples
              (exec (pulseISR 40000) init) eq_refl Hi Hk eq_refl)
    as (_ & _ & _ & _ & Hacc & _).
  assert (H12 : 12000 < 40000) by lia.
  destruct (Hacc H12) as (_ & _ & _ & _ & Hidx & Hrpm).
  split; [exact Hidx | exact Hrpm].
Defined.

(** ** The steady-state scenario *)

Lemma pulse_interval_steady (interval : Z) (s : state) :
  0 <= interval < 4294967296 ->
  pulseInterval (exec (pulseISR (wrap_ulong (lastPulseTime s + interval))) s)
  = interval.
Proof.
  intros Hi. rewrite exec_pulseISR. cbn [pulseInterval set_pulseReceived
    set_lastPulseTime set_pulseInterval]. unfold wrap_ulong.
  rewrite Zminus_mod_idemp_l.
  replace (lastPulseTime s + interval - lastPulseTime s) with interval by lia.
  apply Z.mod_small. lia.
Qed.

Lemma exec_pulse_and_update (interval : Z) (s : state) :
  exec (pulse_and_update interval) s
  = exec handleRPMUpdates
      (exec (pulseISR (wrap_ulong (lastPulseTime s + interval))) s).
Proof.
  unfold pulse_and_update. rewrite !exec_bind. reflexivity.
Qed.

(** Once the ten slots hold the sample of the interval 34286, one more such
    pulse leaves them so. *)
Lemma steady_step (s : state) :
  rpmSamples s = replicate 10 (newRPM_of 34286) ->
  0 <= sampleIndex s < 10 ->
  let s' := exec (pulse_and_update 34286) s in
  rpmSamples s' = replicate 10 (newRPM_of 34286)
  /\ 0 <= sampleIndex s' < 10
  /\ rpm s' = average (replicate 10 (newRPM_of 34286)).
Proof.
  intros Hbuf Hk. cbv zeta.
  rewrite exec_pulse_and_update.
  set (s1 := exec (pulseISR _) s).
  assert (Hi : pulseInterval s1 = 34286).
  { unfold s1. apply pulse_interval_steady. lia. }
  rewrite exec_handleRPMUpdates.
  change (pulseReceived s1) with true. cbv iota zeta. rewrite Hi.
  change (0 <? 34286) with true. cbv iota.
  assert (Hv : validRPM (newRPM_of 34286) = true) by (vm_compute; reflexivity).
  rewrite Hv.
  cbn [rpmSamples sampleIndex rpm set_rpm set_sampleIndex set_rpmSamples
         set_pulseReceived].
  change (rpmSamples s1) with (rpmSamples s).
  change (sampleIndex s1) with (sampleIndex s).
  rewrite Hbuf, insert_replicate, next_sampleIndex by exact Hk.
  split; [reflexivity|]. split; [|reflexivity].
  apply Z.mod_pos_bound. lia.
Qed.

Lemma steady_invariant (n : nat) :
  (10 <= n)%nat ->
  let s := feed 34286 n init in
  rpmSamples s = replicate 10 (newRPM_of 34286)
  /\ 0 <= sampleIndex s < 10
  /\ rpm s = average (replicate 10 (newRPM_of 34286)).
Proof.
  intros Hn. cbv zeta. induction Hn as [|n Hn IH].
  - vm_compute. repeat split; discriminate.
  - destruct IH as (Hb & Hk & _).
    change (feed 34286 (S n) init)
      with (exec (pulse_and_update 34286) (feed 34286 n init)).
    apply steady_step; assumption.
Qed.

Lemma branch_Overspeed_iff (s : state) :
  branch_of s = Overspeed <-> F32.gtb (rpm s) maxShaftRPM = true.
Proof.
  unfold branch_of. destruct (F32.gtb (rpm s) maxShaftRPM).
  - tauto.
  - destruct (F32.gtb (rpm s) (lastRPM s)); split; discriminate.
Qed.

(** C10, as the claim states it, fails: 34286 microseconds is not 1750 RPM
    (1750 * 34286 = 60,000,500).  After ten such pulses from start-up every
    slot holds the same sample and [rpm] is not 1750.0. *)
Lemma steady_34286_is_not_1750 :
  let s := feed 34286 10 init in
  rpmSamples s = replicate 10 (newRPM_of 34286)
  /\ F32.eqb (newRPM_of 34286) maxShaftRPM = false
  /\ F32.eqb (rpm s) maxShaftRPM = false
  /\ rpm s <> F32.of_Z 1750
  /\ 1750 * 34286 <> 60000000.
Proof.
  cbv zeta. split; [vm_compute; reflexivity|].
  split; [vm_compute; reflexivity|]. split; [vm_compute; reflexivity|].
  split; [vm_compute; discriminate | lia].
Qed.

(** C10, amended.  A steady pulse interval of 34286 microseconds is slightly
    less than 1750 RPM (60,000,000 < 1750 * 34286): each sample is
    14335881 / 8192 = 1749.9854736328125, and after any number [n >= 10] of
    such pulses from start-up, each consumed by [handleRPMUpdates], [rpm] is
    14335882 / 8192 = 1749.985595703125.  This is not above 1750, so the
    overspeed branch is not selected.  The overspeed branch is selected
    exactly when [rpm > 1750], and not when [rpm] equals 1750. *)
Theorem steady_34286_stays_below_overspeed (n : nat) :
  (10 <= n)%nat ->
  let s := feed 34286 n init in
  60000000 < 1750 * 34286
  /\ rpmSamples s = replicate 10 (newRPM_of 34286)
  /\ F32.to_Q (newRPM_of 34286) = Some (14335881 # 8192)%Q
  /\ rpm s = F32.dyadic 14335882 (-13)
  /\ F32.to_Q (rpm s) = Some (14335882 # 8192)%Q
  /\ F32.ltb (rpm s) maxShaftRPM = true
  /\ F32.gtb (rpm s) maxShaftRPM = false
  /\ branch_of s <> Overspeed
  /\ (forall s0, F32.eqb (rpm s0) maxShaftRPM = true -> branch_of s0 <> Overspeed)
  /\ (forall s0, branch_of s0 = Overspeed <-> F32.gtb (rpm s0) maxShaftRPM = true).
Proof.
  intros Hn. cbv zeta.
  destruct (steady_invariant n Hn) as (Hb & _ & Hr).
  assert (Ha : average (replicate 10 (newRPM_of 34286)) = F32.dyadic 14335882 (-13))
    by (vm_compute; reflexivity).
  rewrite Hr, Ha.
  split; [lia|]. split; [exact Hb|].
  split; [vm_compute; reflexivity|]. split; [reflexivity|].
  split; [vm_compute; reflexivity|]. split; [vm_compute; reflexivity|].
  split; [vm_compute; reflexivity|].
  split.
  { intros Hov. apply branch_Overspeed_iff in Hov. rewrite Hr, Ha in Hov.
    vm_compute in Hov. discriminate. }
  split; [|apply branch_Overspeed_iff].
  intros s0 Heq Hov. apply branch_Overspeed_iff in Hov.
  rewrite (F32_eqb_not_gtb _ _ Heq) in Hov. discriminate.
Qed.

Lemma steady_34286_stays_below_overspeed_witness :
  (10 <= 12)%nat
  /\ rpm (feed 34286 12 init) = F32.dyadic 14335882 (-13).
Proof.
  assert (H : (10 <= 12)%nat) by lia.
  split; [exact H|].
  destruct (steady_34286_stays_below_overspeed 12 H) as (_ & _ & _ & Hr & _).
  exact Hr.
Defined.

(** * Further properties of the sketch *)

(** ** The interrupt routine and the estimator at their edges *)

(** X1.  The interval [pulseISR] records is the time elapsed since the
    previous edge, also when [micros()] has wrapped around in between, and
    whatever was recorded before. *)
Theorem pulseISR_measures_elapsed (s : state) (d : Z) :
  0 <= d < 4294967296 ->
  let s' := exec (pulseISR (wrap_ulong (lastPulseTime s + d))) s in
  pulseInterval s' = d
  /\ pulseReceived s' = true
  /\ lastPulseTime s' = wrap_ulong (lastPulseTime s + d).
Proof.
  intros Hd. cbv zeta. split; [apply pulse_interval_steady; exact Hd|].
  rewrite exec_pulseISR. split; reflexivity.
Qed.

Lemma pulseISR_measures_elapsed_witness :
  let s := set_lastPulseTime 4294967000 init in
  0 <= 1000 < 4294967296
  /\ wrap_ulong (lastPulseTime s + 1000) = 704
  /\ pulseInterval (exec (pulseISR 704) s) = 1000.
Proof.
  cbv zeta. assert (Hd : 0 <= 1000 < 4294967296) by lia.
  split; [exact Hd|]. split; [reflexivity|].
  destruct (pulseISR_measures_elapsed (set_lastPulseTime 4294967000 init) 1000 Hd)
    as [H _].
  exact H.
Defined.

Lemma log_handleRPMUpdates (s : state) :
  log handleRPMUpdates s =
  if pulseReceived s then
    if 0 <? pulseInterval s then
      if validRPM (newRPM_of (pulseInterval s)) then
        [Print (Str "Smoothed Shaft RPM: ");
         Println (Flt (rpm (exec handleRPMUpdates s)))]
      else [Println (Str "Ignored bad RPM reading")]
    else []
  else [].
Proof.
  rewrite exec_handleRPMUpdates.
  unfold handleRPMUpdates. rewrite log_bind. cbn [get fst].
  destruct (pulseReceived s); [|reflexivity].
  rewrite log_bind. cbv zeta.
  destruct (0 <? pulseInterval s); [|reflexivity].
  destruct (validRPM (newRPM_of (pulseInterval s))); reflexivity.
Qed.

(** X2.  Without a pending pulse, or with a pending interval of 0,
    [handleRPMUpdates] writes no sample: the buffer, the cursor and [rpm] are
    unchanged and nothing is printed; the pending flag is clear
    afterwards. *)
Theorem handleRPMUpdates_idle (s : state) :
  pulseReceived s = false \/ pulseInterval s <= 0 ->
  let s' := exec handleRPMUpdates s in
  rpmSamples s' = rpmSamples s /\ sampleIndex s' = sampleIndex s
  /\ rpm s' = rpm s /\ log handleRPMUpdates s = []
  /\ pulseReceived s' = false.
Proof.
  intros H. cbv zeta. rewrite log_handleRPMUpdates, exec_handleRPMUpdates.
  destruct (pulseReceived s) eqn:Hp.
  - destruct H as [H|H]; [discriminate|].
    replace (0 <? pulseInterval s) with false
      by (symmetry; apply Z.ltb_ge; exact H).
    cbv zeta. repeat split.
  - repeat split. exact Hp.
Qed.

Lemma handleRPMUpdates_idle_witness :
  let s := exec (pulseISR 0) init in
  pulseReceived s = true /\ pulseInterval s <= 0
  /\ rpm (exec handleRPMUpdates s) = rpm s
  /\ pulseReceived (exec handleRPMUpdates s) = false.
Proof.
  cbv zeta. split; [reflexivity|].
  assert (Hi : pulseInterval (exec (pulseISR 0) init) <= 0)
    by (change (0 <= 0); lia).
  split; [exact Hi|].
  destruct (handleRPMUpdates_idle (exec (pulseISR 0) init) (or_intror Hi))
    as (_ & _ & Hr & _ & Hp).
  split; [exact Hr | exact Hp].
Defined.

(** X3.  [handleRPMUpdates] consumes a pulse at most once: called again with
    no interrupt in between it changes nothing and prints nothing. *)
Theorem handleRPMUpdates_consumes_once (s : state) :
  pulseReceived (exec handleRPMUpdates s) = false
  /\ exec handleRPMUpdates (exec handleRPMUpdates s) = exec handleRPMUpdates s
  /\ log handleRPMUpdates (exec handleRPMUpdates s) = [].
Proof.
  assert (Hp : pulseReceived (exec handleRPMUpdates s) = false).
  { rewrite exec_handleRPMUpdates.
    destruct (pulseReceived s) eqn:Hp; [|exact Hp]. cbv zeta.
    destruct (0 <? pulseInterval s); [|reflexivity].
    destruct (validRPM _); reflexivity. }
  split; [exact Hp|].
  rewrite (exec_handleRPMUpdates (exec handleRPMUpdates s)),
    (log_handleRPMUpdates (exec handleRPMUpdates s)), Hp.
  split; reflexivity.
Qed.

Lemma handleRPMUpdates_leaves (s : state) :
  let s' := exec handleRPMUpdates s in
  length (rpmSamples s') = length (rpmSamples s)
  /\ (forall k, k <> Z.to_nat (sampleIndex s) ->
                rpmSamples s' !! k = rpmSamples s !! k)
  /\ actuatorPosition s' = actuatorPosition s /\ movingUp s' = movingUp s
  /\ lastRPM s' = lastRPM s /\ lastUpdateTime s' = lastUpdateTime s
  /\ braking s' = braking s /\ estopEngaged s' = estopEngaged s
  /\ pulseInterval s' = pulseInterval s /\ lastPulseTime s' = lastPulseTime s.
Proof.
  cbv zeta. rewrite exec_handleRPMUpdates.
  destruct (pulseReceived s); [|repeat split]. cbv zeta.
  destruct (0 <? pulseInterval s); [|repeat split].
  destruct (validRPM _); [|repeat split].
  cbn [rpmSamples actuatorPosition movingUp lastRPM lastUpdateTime braking
         estopEngaged pulseInterval lastPulseTime set_rpm set_sampleIndex
         set_rpmSamples set_pulseReceived].
  split; [apply length_insert|].
  split; [|repeat split].
  intros k Hk. apply list_lookup_insert_ne. congruence.
Qed.

(** X4.  [handleRPMUpdates] writes at most the slot under the cursor, keeps
    the length of the buffer, and never touches the variables of the
    optimizer, of the interlock or of the interrupt routine other than the
    pending flag. *)
Theorem handleRPMUpdates_frame (s : state) :
  let s' := exec handleRPMUpdates s in
  length (rpmSamples s') = length (rpmSamples s)
  /\ (forall k, k <> Z.to_nat (sampleIndex s) ->
                rpmSamples s' !! k = rpmSamples s !! k)
  /\ actuatorPosition s' = actuatorPosition s /\ movingUp s' = movingUp s
  /\ lastRPM s' = lastRPM s /\ lastUpdateTime s' = lastUpdateTime s
  /\ braking s' = braking s /\ estopEngaged s' = estopEngaged s
  /\ pulseInterval s' = pulseInterval s /\ lastPulseTime s' = lastPulseTime s.
Proof. exact (handleRPMUpdates_leaves s). Qed.

Lemma handleRPMUpdates_frame_witness :
  let s := exec (pulseISR 40000) init in
  1%nat <> Z.to_nat (sampleIndex s)
  /\ rpmSamples (exec handleRPMUpdates s) !! 1%nat = rpmSamples s !! 1%nat.
Proof.
  cbv zeta.
  assert (Hk : 1%nat <> Z.to_nat (sampleIndex (exec (pulseISR 40000) init)))
    by (change (1%nat <> 0%nat); lia).
  split; [exact Hk|].
  destruct (handleRPMUpdates_frame (exec (pulseISR 40000) init)) as (_ & H & _).
  exact (H 1%nat Hk).
Defined.

(** ** Invariants of the three routines together *)

Lemma average_zero : average (replicate 10 F32.zero) = F32.zero.
Proof. vm_compute. reflexivity. Qed.

Lemma act_invariant (s : state) (a : action) :
  (length (rpmSamples s) = 10%nat /\ 0 <= sampleIndex s < 10
   /\ rpm s = average (rpmSamples s) /\ Forall slot_ok (rpmSamples s)
   /\ 47 <= actuatorPosition s <= 71
   /\ braking s = false /\ estopEngaged s = false) ->
  let s' := act s a in
  length (rpmSamples s') = 10%nat /\ 0 <= sampleIndex s' < 10
  /\ rpm s' = average (rpmSamples s') /\ Forall slot_ok (rpmSamples s')
  /\ 47 <= actuatorPosition s' <= 71
  /\ braking s' = false /\ estopEngaged s' = false.
Proof.
  intros (Hlen & Hidx & Hrpm & Hslots & Hpos & Hb & He). cbv zeta.
  destruct a as [inp|now|]; cbn [act].
  - pose proof (loop_frame inp s) as (Hr & Hs & Hi & _).
    pose proof (loop_flags inp s) as (Hb' & He').
    pose proof (position_preserved inp s Hpos) as Hp'.
    cbv zeta in *. rewrite Hb in He'.
    rewrite Hr, Hs, Hi. repeat split; try assumption; try lia. congruence.
  - rewrite exec_pulseISR.
    cbn [rpmSamples sampleIndex rpm actuatorPosition braking estopEngaged
           set_pulseReceived set_lastPulseTime set_pulseInterval].
    repeat split; try assumption; lia.
  - pose proof (handleRPMUpdates_leaves s)
      as (Hl' & _ & Hp' & _ & _ & _ & Hb' & He' & _).
    cbv zeta in *. rewrite Hl', Hp', Hb', He'.
    split; [exact Hlen|].
    assert (Hest : 0 <= sampleIndex (exec handleRPMUpdates s) < 10
                   /\ rpm (exec handleRPMUpdates s)
                      = average (rpmSamples (exec handleRPMUpdates s))
                   /\ Forall slot_ok (rpmSamples (exec handleRPMUpdates s))).
    { rewrite exec_handleRPMUpdates.
      destruct (pulseReceived s); [|auto]. cbv zeta.
      destruct (0 <? pulseInterval s); [|auto].
      destruct (validRPM (newRPM_of (pulseInterval s))) eqn:Hv; [|auto].
      cbn [rpmSamples sampleIndex rpm set_rpm set_sampleIndex
             set_rpmSamples set_pulseReceived].
      rewrite next_sampleIndex by exact Hidx.
      split; [apply Z.mod_pos_bound; lia|].
      split; [reflexivity|].
      apply Forall_insert; [exact Hslots|]. right. exact Hv. }
    destruct Hest as (H1 & H2 & H3). auto 10.
Qed.

(** X5.  Whatever the order in which iterations of [loop], encoder
    interrupts and calls of [handleRPMUpdates] follow [setup]: the buffer
    keeps its ten slots, the cursor stays within them, [rpm] is the average
    of the buffer as the summation loop computes it, every slot holds the
    initial zero or a sample strictly between 0 and 5000, the actuator
    position stays within [47, 71] and neither flag is ever set. *)
Theorem sketch_invariant (acts : list action) :
  let s := perform acts init in
  length (rpmSamples s) = 10%nat /\ 0 <= sampleIndex s < 10
  /\ rpm s = average (rpmSamples s) /\ Forall slot_ok (rpmSamples s)
  /\ 47 <= actuatorPosition s <= 71
  /\ braking s = false /\ estopEngaged s = false.
Proof.
  cbv zeta. induction acts as [|a acts IH] using rev_ind.
  - change (perform [] init) with init.
    split; [reflexivity|]. split; [change (0 <= 0 < 10); lia|].
    split; [symmetry; exact average_zero|].
    split.
    { change (rpmSamples init) with (replicate 10 F32.zero).
      apply Forall_replicate. left. reflexivity. }
    split; [change (47 <= 56 <= 71); lia|]. split; reflexivity.
  - unfold perform. rewrite fold_left_app. cbn [fold_left].
    apply (act_invariant (perform acts init) a IH).
Qed.

(** ** The servo commands of an iteration *)

Lemma servo_writes_app (l1 l2 : list io) :
  servo_writes (l1 ++ l2) = servo_writes l1 ++ servo_writes l2.
Proof. unfold servo_writes. apply flat_map_app. Qed.

Lemma servo_writes_decide_move (s : state) :
  servo_writes (log decide_move s) = [].
Proof.
  rewrite log_decide_move.
  destruct (branch_of s); [reflexivity| |]; destruct (movingUp s); reflexivity.
Qed.

Lemma servo_writes_loop (inp : inputs) (s : state) :
  servo_writes (log (loop inp) s) =
  (if braking s then [70] else [])
  ++ (if tick_due (in_millis inp) (exec braking_block s)
      then [clamp (actuatorPosition
                     (tentative (in_millis inp) (exec braking_block s)))]
      else []).
Proof.
  rewrite log_loop, !servo_writes_app, log_braking_block, log_optimizer_block.
  change (servo_writes [Delay 500]) with (@nil Z). rewrite app_nil_r.
  cbn [servo_writes flat_map app]. f_equal.
  - destruct (braking s); reflexivity.
  - destruct (tick_due (in_millis inp) (exec braking_block s)); [|reflexivity].
    rewrite servo_writes_app, servo_writes_decide_move, log_commit_move.
    reflexivity.
Qed.

Lemma decide_move_leaves (s : state) :
  let s' := exec decide_move s in
  lastUpdateTime s' = lastUpdateTime s /\ rpm s' = rpm s
  /\ lastRPM s' = lastRPM s /\ braking s' = braking s
  /\ estopEngaged s' = estopEngaged s.
Proof.
  cbv zeta. rewrite exec_decide_move.
  destruct (branch_of s); cbv zeta; try destruct (movingUp _);
    repeat split.
Qed.

Lemma tick_due_elapsed (t d : Z) (s : state) :
  braking s = false -> estopEngaged s = false ->
  0 <= d < 4294967296 -> t = wrap_ulong (lastUpdateTime s + d) ->
  tick_due t s = (100 <? d).
Proof.
  intros Hb He Hd Ht. unfold tick_due, updateInterval. rewrite Hb, He, Ht.
  cbn [negb andb]. unfold wrap_ulong. rewrite Zminus_mod_idemp_l.
  replace (lastUpdateTime s + d - lastUpdateTime s) with d by lia.
  rewrite Z.mod_small by lia. reflexivity.
Qed.

(** X6.  With both flags clear, the optimizer runs in an iteration exactly
    when more than 100 ms have elapsed since it last ran, also when
    [millis()] has wrapped around in between.  When it runs it records the
    time and the current [rpm] and commands the servo once; when it does not,
    the iteration leaves the whole state as it was and commands nothing. *)
Theorem optimizer_runs_after_100ms (inp : inputs) (s : state) (d : Z) :
  braking s = false -> estopEngaged s = false ->
  0 <= d < 4294967296 ->
  in_millis inp = wrap_ulong (lastUpdateTime s + d) ->
  let s' := exec (loop inp) s in
  (100 < d ->
     lastUpdateTime s' = in_millis inp /\ lastRPM s' = rpm s
     /\ servo_writes (log (loop inp) s) = [actuatorPosition s'])
  /\ (d <= 100 -> s' = s /\ servo_writes (log (loop inp) s) = []).
Proof.
  intros Hb He Hd Ht. cbv zeta.
  assert (Hbb : exec braking_block s = s)
    by (rewrite exec_braking_block, Hb; reflexivity).
  rewrite servo_writes_loop, exec_loop, Hbb, exec_optimizer_block, Hb.
  rewrite (tick_due_elapsed _ d s Hb He Hd Ht).
  split; intros Hgt.
  - replace (100 <? d) with true by (symmetry; apply Z.ltb_lt; exact Hgt).
    rewrite exec_commit_move.
    pose proof (decide_move_leaves (set_lastUpdateTime (in_millis inp) s))
      as (Hlu & Hr & _).
    cbv zeta in *.
    cbn [lastUpdateTime lastRPM set_lastRPM set_actuatorPosition].
    rewrite Hlu, Hr. repeat split.
  - replace (100 <? d) with false by (symmetry; apply Z.ltb_ge; exact Hgt).
    split; reflexivity.
Qed.

Lemma optimizer_runs_after_100ms_witness :
  let s := set_lastUpdateTime 4294967200 init in
  let inp := mkInputs 104 LOW 500 in
  braking s = false /\ estopEngaged s = false
  /\ 0 <= 200 < 4294967296
  /\ in_millis inp = wrap_ulong (lastUpdateTime s + 200)
  /\ lastUpdateTime (exec (loop inp) s) = 104.
Proof.
  cbv zeta. assert (Hd : 0 <= 200 < 4294967296) by lia.
  split; [reflexivity|]. split; [reflexivity|]. split; [exact Hd|].
  split; [reflexivity|].
  destruct (optimizer_runs_after_100ms (mkInputs 104 LOW 500)
              (set_lastUpdateTime 4294967200 init) 200
              eq_refl eq_refl Hd eq_refl) as [H _].
  assert (H100 : 100 < 200) by lia.
  destruct (H H100) as [Ht _]. exact Ht.
Defined.

(** X7.  Whatever the state and the inputs, an iteration of [loop] commands
    the servo at most twice (once by the braking state, once by the
    optimizer) and every position it commands lies within [47, 71]. *)
Theorem servo_commands_within_bounds (inp : inputs) (s : state) :
  (length (servo_writes (log (loop inp) s)) <= 2)%nat
  /\ Forall (fun p => 47 <= p <= 71) (servo_writes (log (loop inp) s)).
Proof.
  rewrite servo_writes_loop.
  destruct (braking s), (tick_due _ _); cbn [app length]; split;
    repeat constructor; try lia; apply clamp_range.
Qed.

(** X8.  From a position within the bounds and without a braking request,
    an iteration moves the actuator by at most one unit. *)
Theorem one_step_per_iteration (inp : inputs) (s : state) :
  braking s = false -> 47 <= actuatorPosition s <= 71 ->
  -1 <= actuatorPosition (exec (loop inp) s) - actuatorPosition s <= 1.
Proof.
  intros Hb Hpos. rewrite exec_loop, exec_braking_block, Hb,
    exec_optimizer_block.
  destruct (tick_due (in_millis inp) s); [|lia].
  rewrite exec_commit_move, exec_decide_move.
  cbn [actuatorPosition set_lastRPM set_actuatorPosition].
  destruct (branch_of _); cbv zeta; try destruct (movingUp _);
    rewrite ?exec_step_up, ?exec_step_down;
    cbn [actuatorPosition set_actuatorPosition set_lastUpdateTime
           set_movingUp];
    rewrite wrap_int_id by (unfold stepSize; lia);
    unfold clamp, actuatorMin, actuatorMax, stepSize; lia.
Qed.

Lemma one_step_per_iteration_witness :
  let s := set_actuatorPosition 71 (set_rpm (F32.of_Z 2000) init) in
  braking s = false /\ 47 <= actuatorPosition s <= 71
  /\ -1 <= actuatorPosition (exec (loop (mkInputs 1000 LOW 500)) s)
           - actuatorPosition s <= 1.
Proof.
  cbv zeta. assert (Hp : 47 <= 71 <= 71) by lia.
  split; [reflexivity|]. split; [exact Hp|].
  exact (one_step_per_iteration (mkInputs 1000 LOW 500)
           (set_actuatorPosition 71 (set_rpm (F32.of_Z 2000) init))
           eq_refl Hp).
Defined.

(** ** A latched emergency stop *)

Lemma latched_act (s : state) (a : action) :
  estopEngaged s = true -> braking s = false ->
  let s' := act s a in
  estopEngaged s' = true /\ braking s' = false
  /\ actuatorPosition s' = actuatorPosition s /\ movingUp s' = movingUp s
  /\ lastRPM s' = lastRPM s /\ lastUpdateTime s' = lastUpdateTime s.
Proof.
  intros He Hb. cbv zeta. destruct a as [inp|now|]; cbn [act].
  - assert (Hs : exec (loop inp) s = s).
    { rewrite exec_loop, exec_braking_block, Hb, exec_optimizer_block.
      unfold tick_due. rewrite Hb, He. reflexivity. }
    rewrite Hs. auto 10.
  - rewrite exec_pulseISR. auto 10.
  - pose proof (handleRPMUpdates_leaves s)
      as (_ & _ & Hp & Hm & Hl & Hu & Hb' & He' & _).
    cbv zeta in *. rewrite Hp, Hm, Hl, Hu, Hb', He'. auto 10.
Qed.

(** X9.  Nothing in the sketch clears [estopEngaged] unless [braking] is set
    with it: from a state with [estopEngaged] true and [braking] false every
    iteration of [loop] leaves the state unchanged and commands nothing, and
    along any sequence of iterations, interrupts and estimator calls the
    flag stays set and the actuator position, the direction, [lastRPM] and
    the time of the last tick never change. *)
Theorem estop_without_braking_stays_latched (s : state) :
  estopEngaged s = true -> braking s = false ->
  (forall inp, exec (loop inp) s = s
               /\ servo_writes (log (loop inp) s) = [])
  /\ (forall acts,
        let s' := perform acts s in
        estopEngaged s' = true /\ braking s' = false
        /\ actuatorPosition s' = actuatorPosition s
        /\ movingUp s' = movingUp s /\ lastRPM s' = lastRPM s
        /\ lastUpdateTime s' = lastUpdateTime s).
Proof.
  intros He Hb. split.
  - intros inp.
    assert (Htd : tick_due (in_millis inp) s = false)
      by (unfold tick_due; rewrite Hb, He; reflexivity).
    assert (Hbb : exec braking_block s = s)
      by (rewrite exec_braking_block, Hb; reflexivity).
    rewrite servo_writes_loop, exec_loop, Hbb, exec_optimizer_block, Htd, Hb.
    split; reflexivity.
  - intros acts. cbv zeta.
    induction acts as [|a acts IH] using rev_ind; [auto 10|].
    unfold perform. rewrite fold_left_app. cbn [fold_left].
    fold (perform acts s).
    destruct IH as (He1 & Hb1 & Hp1 & Hm1 & Hl1 & Hu1).
    pose proof (latched_act (perform acts s) a He1 Hb1) as H.
    cbv zeta in H. destruct H as (? & ? & ? & ? & ? & ?).
    repeat split; congruence.
Qed.

Lemma estop_without_braking_stays_latched_witness :
  let s := set_estopEngaged true init in
  estopEngaged s = true /\ braking s = false
  /\ exec (loop (mkInputs 1000 LOW 500)) s = s.
Proof.
  cbv zeta. split; [reflexivity|]. split; [reflexivity|].
  destruct (estop_without_braking_stays_latched (set_estopEngaged true init)
              eq_refl eq_refl) as [H _].
  destruct (H (mkInputs 1000 LOW 500)) as [Hs _]. exact Hs.
Defined.

(** ** Braking and the optimizer in one iteration *)

(** X10.  The braking state clears its flags before the guard of the
    optimizer is evaluated, so a braking iteration runs the optimizer too
    whenever its 100 ms are up: the servo is then commanded 70 and, right
    after, 69 or 71, and the iteration never ends at the brake position.
    Only when the optimizer is not due does the iteration end at 70. *)
Theorem braking_is_overridden_when_tick_is_due (inp : inputs) (s : state) :
  braking s = true ->
  let due := updateInterval <? wrap_ulong (in_millis inp - lastUpdateTime s) in
  let s' := exec (loop inp) s in
  (due = true ->
     (actuatorPosition s' = 69 \/ actuatorPosition s' = 71)
     /\ servo_writes (log (loop inp) s) = [70; actuatorPosition s'])
  /\ (due = false ->
     actuatorPosition s' = 70 /\ servo_writes (log (loop inp) s) = [70]).
Proof.
  intros Hb. cbv zeta.
  assert (Htd : tick_due (in_millis inp) (exec braking_block s)
                = (updateInterval <? wrap_ulong (in_millis inp - lastUpdateTime s))).
  { rewrite exec_braking_block, Hb. reflexivity. }
  rewrite servo_writes_loop, exec_loop, exec_optimizer_block, Htd, Hb.
  split; intros Hdue; rewrite Hdue.
  - rewrite exec_commit_move. unfold tentative.
    rewrite exec_decide_move, exec_braking_block, Hb.
    cbn [actuatorPosition set_lastRPM set_actuatorPosition app].
    destruct (branch_of _); cbv zeta; try destruct (movingUp _);
      rewrite ?exec_step_up, ?exec_step_down;
      cbn [actuatorPosition set_actuatorPosition set_lastUpdateTime
             set_movingUp set_estopEngaged set_braking];
      (split; [|reflexivity]); vm_compute; auto.
  - rewrite exec_braking_block, Hb. split; reflexivity.
Qed.

Lemma braking_is_overridden_when_tick_is_due_witness :
  let s := set_braking true init in
  braking s = true
  /\ (updateInterval <? wrap_ulong (1000 - lastUpdateTime s)) = true
  /\ servo_writes (log (loop (mkInputs 1000 LOW 500)) s)
     = [70; actuatorPosition (exec (loop (mkInputs 1000 LOW 500)) s)].
Proof.
  cbv zeta. split; [reflexivity|]. split; [reflexivity|].
  destruct (braking_is_overridden_when_tick_is_due (mkInputs 1000 LOW 500)
              (set_braking true init) eq_refl) as [H _].
  destruct (H eq_refl) as [_ Hw]. exact Hw.
Defined.

(** ** The sketch as shipped *)

(** X11.  As shipped (no call of the estimator), the actuator only ever
    alternates between its initial position and the one below: in every
    reachable state the position is 56 with [movingUp] true or 55 with
    [movingUp] false, and every servo command of an iteration is 55 or 56. *)
Theorem shipped_actuator_oscillates (evs : list event) :
  let s := run evs init in
  ((movingUp s = true /\ actuatorPosition s = 56)
   \/ (movingUp s = false /\ actuatorPosition s = 55))
  /\ (forall inp,
        Forall (fun p => p = 55 \/ p = 56) (servo_writes (log (loop inp) s))).
Proof.
  cbv zeta.
  assert (Hstep : forall s inp,
             rpm s = F32.zero -> lastRPM s = F32.zero -> braking s = false ->
             ((movingUp s = true /\ actuatorPosition s = 56)
              \/ (movingUp s = false /\ actuatorPosition s = 55)) ->
             ((movingUp (exec (loop inp) s) = true
               /\ actuatorPosition (exec (loop inp) s) = 56)
              \/ (movingUp (exec (loop inp) s) = false
                  /\ actuatorPosition (exec (loop inp) s) = 55))
             /\ Forall (fun p => p = 55 \/ p = 56)
                  (servo_writes (log (loop inp) s))).
  { intros s inp Hr Hl Hb Hosc.
    assert (Hbb : exec braking_block s = s)
      by (rewrite exec_braking_block, Hb; reflexivity).
    rewrite servo_writes_loop, exec_loop, Hbb, exec_optimizer_block, Hb.
    destruct (tick_due (in_millis inp) s); [|split; [exact Hosc|constructor]].
    unfold tentative. rewrite exec_commit_move, exec_decide_move.
    assert (Hbr : branch_of (set_lastUpdateTime (in_millis inp) s) = NotImproving).
    { unfold branch_of. cbn [rpm lastRPM set_lastUpdateTime].
      rewrite Hr, Hl. reflexivity. }
    rewrite Hbr. cbv zeta.
    cbn [movingUp set_movingUp set_lastUpdateTime].
    destruct Hosc as [[Hm Hp]|[Hm Hp]]; rewrite Hm; cbn [negb];
      rewrite ?exec_step_up, ?exec_step_down;
      cbn [actuatorPosition movingUp set_actuatorPosition set_movingUp
             set_lastUpdateTime set_lastRPM app];
      rewrite Hp.
    all: split;
      [ first [left; split; reflexivity | right; split; reflexivity]
      | repeat constructor; first [left; reflexivity | right; reflexivity] ]. }
  induction evs as [|ev evs IH] using rev_ind.
  - split; [left; split; reflexivity|].
    intros inp. apply (Hstep init inp); try reflexivity.
    left. split; reflexivity.
  - pose proof (shipped_invariant evs) as (Hr & Hl & Hb & _).
    cbv zeta in Hr, Hl, Hb. destruct IH as [Hosc _].
    assert (Hnext : (movingUp (run (evs ++ [ev]) init) = true
                     /\ actuatorPosition (run (evs ++ [ev]) init) = 56)
                    \/ (movingUp (run (evs ++ [ev]) init) = false
                        /\ actuatorPosition (run (evs ++ [ev]) init) = 55)).
    { rewrite run_snoc. destruct ev as [inp|now]; cbn [step].
      - apply (Hstep _ inp Hr Hl Hb Hosc).
      - exact Hosc. }
    split; [exact Hnext|].
    pose proof (shipped_invariant (evs ++ [ev])) as (Hr' & Hl' & Hb' & _).
    cbv zeta in Hr', Hl', Hb'.
    intros inp. apply (Hstep _ inp Hr' Hl' Hb' Hnext).
Qed.

(** ** Interrupts and iterations *)

Lemma loop_commutes_with_isr_fields (inp : inputs) (a : bool) (b c : Z)
    (s : state) :
  exec (loop inp)
    (set_pulseReceived a (set_lastPulseTime b (set_pulseInterval c s)))
  = set_pulseReceived a
      (set_lastPulseTime b (set_pulseInterval c (exec (loop inp) s)))
  /\ log (loop inp)
       (set_pulseReceived a (set_lastPulseTime b (set_pulseInterval c s)))
     = log (loop inp) s.
Proof.
  set (u := fun s0 => set_pulseReceived a
                        (set_lastPulseTime b (set_pulseInterval c s0))).
  change (exec (loop inp) (u s) = u (exec (loop inp) s)
          /\ log (loop inp) (u s) = log (loop inp) s).
  assert (Hbrk : forall s0,
             exec braking_block (u s0) = u (exec braking_block s0)
             /\ log braking_block (u s0) = log braking_block s0).
  { intros s0. rewrite !exec_braking_block, !log_braking_block.
    change (braking (u s0)) with (braking s0).
    destruct (braking s0); split; reflexivity. }
  assert (Hopt : forall t s0,
             exec (optimizer_block t) (u s0) = u (exec (optimizer_block t) s0)
             /\ log (optimizer_block t) (u s0) = log (optimizer_block t) s0).
  { intros t s0. rewrite !exec_optimizer_block, !log_optimizer_block.
    change (tick_due t (u s0)) with (tick_due t s0).
    destruct (tick_due t s0); [|split; reflexivity].
    rewrite !log_commit_move, !exec_commit_move, !log_decide_move,
      !exec_decide_move.
    change (branch_of (set_lastUpdateTime t (u s0))) with (branch_of s0).
    change (branch_of (set_lastUpdateTime t s0)) with (branch_of s0).
    change (movingUp (set_lastUpdateTime t (u s0))) with (movingUp s0).
    change (movingUp (set_lastUpdateTime t s0)) with (movingUp s0).
    destruct (branch_of s0); cbv zeta.
    - split; reflexivity.
    - destruct (movingUp s0); split; reflexivity.
    - change (movingUp (set_movingUp (negb (movingUp s0))
                          (set_lastUpdateTime t (u s0))))
        with (negb (movingUp s0)).
      change (movingUp (set_movingUp (negb (movingUp s0))
                          (set_lastUpdateTime t s0)))
        with (negb (movingUp s0)).
      destruct (movingUp s0); split; reflexivity. }
  rewrite !exec_loop, !log_loop.
  destruct (Hbrk s) as [Hb1 Hb2]. rewrite Hb1, Hb2.
  destruct (Hopt (in_millis inp) (exec braking_block s)) as [Ho1 Ho2].
  rewrite Ho1, Ho2. split; reflexivity.
Qed.

(** X12.  An encoder interrupt and an iteration of [loop] commute: [loop]
    reads and writes none of the variables of [pulseISR], so an interrupt
    taken before an iteration, or after it, gives the same state, and the
    iteration prints and commands the same. *)
Theorem pulse_and_loop_commute (inp : inputs) (now : Z) (s : state) :
  exec (loop inp) (exec (pulseISR now) s)
  = exec (pulseISR now) (exec (loop inp) s)
  /\ log (loop inp) (exec (pulseISR now) s) = log (loop inp) s.
Proof.
  rewrite !exec_pulseISR.
  pose proof (loop_frame inp s) as (_ & _ & _ & _ & _ & Hlp).
  cbv zeta in Hlp. rewrite Hlp.
  apply loop_commutes_with_isr_fields.
Qed.

(** ** Sustained overspeed *)

(** X13.  While [rpm] stays above [maxShaftRPM], every tick of the optimizer
    raises the position by one until it reaches 71 and holds it there: after
    [n] iterations in which the optimizer is due, from a position [p] within
    the bounds and without a braking request, the position is
    [min 71 (p + n)]. *)
Theorem sustained_overspeed_saturates (inps : list inputs) (s : state) :
  braking s = false -> F32.gtb (rpm s) maxShaftRPM = true ->
  47 <= actuatorPosition s <= 71 -> ticks_due inps s = true ->
  actuatorPosition (run (map Iteration inps) s)
  = Z.min 71 (actuatorPosition s + Z.of_nat (length inps)).
Proof.
  revert s. induction inps as [|inp rest IH]; intros s Hb Hov Hpos Hdue.
  - cbn [map run fold_left length Z.of_nat]. lia.
  - cbn [ticks_due] in Hdue. apply andb_true_iff in Hdue as [Htick Hrest].
    change (run (map Iteration (inp :: rest)) s)
      with (run (map Iteration rest) (exec (loop inp) s)).
    pose proof (loop_frame inp s) as (Hr & _).
    pose proof (loop_flags inp s) as (Hb' & _).
    pose proof (position_preserved inp s Hpos) as Hpos'.
    cbv zeta in Hr, Hb'.
    assert (Hstep : actuatorPosition (exec (loop inp) s)
                    = Z.min 71 (actuatorPosition s + 1)).
    { rewrite exec_loop, exec_optimizer_block, Htick, exec_commit_move,
        exec_decide_move.
      rewrite exec_braking_block, Hb.
      assert (Hbr : branch_of (set_lastUpdateTime (in_millis inp) s) = Overspeed).
      { unfold branch_of. cbn [rpm set_lastUpdateTime]. rewrite Hov. reflexivity. }
      rewrite Hbr, exec_step_up.
      cbn [actuatorPosition set_lastRPM set_actuatorPosition set_lastUpdateTime].
      rewrite wrap_int_id by (unfold stepSize; lia).
      unfold clamp, actuatorMin, actuatorMax, stepSize. lia. }
    rewrite (IH (exec (loop inp) s)); try assumption.
    + rewrite Hstep. cbn [length]. lia.
    + rewrite Hr. exact Hov.
Qed.

Lemma sustained_overspeed_saturates_witness :
  let s := set_actuatorPosition 70 (set_rpm (F32.of_Z 2000) init) in
  let inps := [mkInputs 1000 LOW 500; mkInputs 2000 LOW 500;
               mkInputs 3000 LOW 500] in
  braking s = false /\ F32.gtb (rpm s) maxShaftRPM = true
  /\ 47 <= actuatorPosition s <= 71 /\ ticks_due inps s = true
  /\ actuatorPosition (run (map Iteration inps) s) = Z.min 71 (70 + 3).
Proof.
  cbv zeta. assert (Hp : 47 <= 70 <= 71) by lia.
  split; [reflexivity|]. split; [reflexivity|]. split; [exact Hp|].
  split; [reflexivity|].
  exact (sustained_overspeed_saturates
           [mkInputs 1000 LOW 500; mkInputs 2000 LOW 500; mkInputs 3000 LOW 500]
           (set_actuatorPosition 70 (set_rpm (F32.of_Z 2000) init))
           eq_refl eq_refl Hp eq_refl).
Defined.

(** ** The load-sense chain *)

Lemma map_eq_Forall {A B} (f g : A -> B) (l : list A) :
  map f l = map g l -> List.Forall (fun a => f a = g a) l.
Proof.
  induction l as [|a l IH]; intros H; [constructor|].
  cbn [map] in H. injection H as Ha Hl. constructor; auto.
Qed.

(** X14.  The load-sense computation is exact in single precision for every
    ADC reading 0..1023: [Vmeasured] is [5 * reading / 1024] and [Vload] is
    [reading / 64] volts, without rounding error. *)
Theorem load_voltage_is_exact :
  Forall (fun a =>
            Vmeasured_of (F32.of_Z a) = F32.dyadic (5 * a) (-10)
            /\ Vload_of (Vmeasured_of (F32.of_Z a)) = F32.dyadic a (-6))
    adc_readings.
Proof.
  assert (H : List.Forall
                (fun a =>
                   (Vmeasured_of (F32.of_Z a),
                    Vload_of (Vmeasured_of (F32.of_Z a)))
                   = (F32.dyadic (5 * a) (-10), F32.dyadic a (-6)))
                adc_readings).
  { apply map_eq_Forall. vm_compute. reflexivity. }
  eapply List.Forall_impl; [|exact H].
  intros a Ha. injection Ha as H1 H2. split; assumption.
Qed.

(** ** The ring buffer *)

Lemma pulse_and_update_accepts (i : Z) (s : state) :
  12000 < i < 4294967296 -> 0 <= sampleIndex s < 10 ->
  let s' := exec (pulse_and_update i) s in
  rpmSamples s' = <[Z.to_nat (sampleIndex s) := newRPM_of i]> (rpmSamples s)
  /\ sampleIndex s' = (sampleIndex s + 1) mod 10
  /\ rpm s' = average (rpmSamples s').
Proof.
  intros Hi Hk. cbv zeta. rewrite exec_pulse_and_update.
  set (s1 := exec (pulseISR _) s).
  assert (Hint : pulseInterval s1 = i)
    by (unfold s1; apply pulse_interval_steady; lia).
  rewrite exec_handleRPMUpdates.
  change (pulseReceived s1) with true. cbv iota zeta. rewrite Hint.
  replace (0 <? i) with true by (symmetry; apply Z.ltb_lt; lia).
  rewrite validRPM_iff by lia.
  replace (12000 <? i) with true by (symmetry; apply Z.ltb_lt; lia).
  cbn [rpmSamples sampleIndex rpm set_rpm set_sampleIndex set_rpmSamples
         set_pulseReceived].
  change (rpmSamples s1) with (rpmSamples s).
  change (sampleIndex s1) with (sampleIndex s).
  rewrite next_sampleIndex by exact Hk. repeat split.
Qed.

Lemma feed_intervals_snoc (l : list Z) (i : Z) (s : state) :
  feed_intervals (l ++ [i]) s
  = exec (pulse_and_update i) (feed_intervals l s).
Proof. unfold feed_intervals. rewrite fold_left_app. reflexivity. Qed.

Lemma mod10_distinct (k n : nat) :
  (k < n)%nat -> (n < k + 10)%nat -> (k mod 10 <> n mod 10)%nat.
Proof.
  intros Hkn Hn Heq.
  pose proof (Nat.div_mod_eq k 10). pose proof (Nat.div_mod_eq n 10). lia.
Qed.

(** X15.  Fed with admitted intervals only (each pulse consumed before the
    next), the buffer is a ring of the last ten samples: after [n] pulses
    the cursor is [n mod 10], the sample of the [k]-th pulse is in slot
    [k mod 10] for each of the last ten pulses, the slots not yet written
    still hold the initial zero, and [rpm] is the average of the ten
    slots. *)
Theorem ring_buffer_keeps_last_ten (l : list Z) :
  Forall (fun i => 12000 < i < 4294967296) l ->
  let s := feed_intervals l init in
  length (rpmSamples s) = 10%nat
  /\ sampleIndex s = Z.of_nat (length l) mod 10
  /\ (forall k i, l !! k = Some i -> (length l <= k + 10)%nat ->
                  rpmSamples s !! (k mod 10)%nat = Some (newRPM_of i))
  /\ (forall j, (length l <= j < 10)%nat -> rpmSamples s !! j = Some F32.zero)
  /\ rpm s = average (rpmSamples s).
Proof.
  cbv zeta. induction l as [|i l IH] using rev_ind; intros Hall.
  - change (feed_intervals [] init) with init.
    split; [reflexivity|]. split; [reflexivity|].
    split; [intros k i Hk; rewrite lookup_nil in Hk; discriminate|].
    split.
    + intros j Hj. change (rpmSamples init) with (replicate 10 F32.zero).
      apply lookup_replicate_2. lia.
    + symmetry. exact average_zero.
  - apply Forall_app in Hall as [Hl Hi]. apply List.Forall_inv in Hi.
    destruct (IH Hl) as (Hlen & Hidx & Hlast & Hzero & _).
    set (n := length l) in *.
    assert (Hmod : 0 <= Z.of_nat n mod 10 < 10) by (apply Z.mod_pos_bound; lia).
    assert (Hcur : Z.to_nat (Z.of_nat n mod 10) = (n mod 10)%nat).
    { change 10 with (Z.of_nat 10). rewrite <- Nat2Z.inj_mod.
      apply Nat2Z.id. }
    assert (Hlt : (n mod 10 < 10)%nat) by (apply Nat.mod_upper_bound; lia).
    rewrite feed_intervals_snoc.
    destruct (pulse_and_update_accepts i (feed_intervals l init) Hi)
      as (Hbuf & Hidx' & Hrpm); [rewrite Hidx; exact Hmod|].
    rewrite Hidx, Hcur in Hbuf. rewrite Hbuf, length_insert.
    split; [exact Hlen|].
    split.
    { rewrite Hidx', Hidx, length_app. cbn [length].
      rewrite Z.add_mod_idemp_l by lia. f_equal. lia. }
    split; [|split].
    + intros k i0 Hk Hrecent. rewrite length_app in Hrecent.
      cbn [length] in Hrecent. fold n in Hrecent.
      destruct (Nat.lt_ge_cases k n) as [Hkn|Hkn].
      * rewrite lookup_app_l in Hk by exact Hkn.
        rewrite list_lookup_insert_ne
          by (intros Heq; apply (mod10_distinct k n); [lia|lia|congruence]).
        apply Hlast; [exact Hk|lia].
      * assert (Hkeq : k = n).
        { apply lookup_lt_Some in Hk. rewrite length_app in Hk.
          cbn [length] in Hk. fold n in Hk. lia. }
        subst k. rewrite lookup_app_r in Hk by (fold n; lia).
        fold n in Hk. rewrite Nat.sub_diag in Hk. cbn in Hk.
        injection Hk as <-.
        apply list_lookup_insert_eq. rewrite Hlen. exact Hlt.
    + intros j Hj. rewrite length_app in Hj. cbn [length] in Hj. fold n in Hj.
      rewrite list_lookup_insert_ne.
      * apply Hzero. lia.
      * rewrite Nat.mod_small by lia. lia.
    + rewrite Hrpm, Hbuf. reflexivity.
Qed.

Lemma ring_buffer_keeps_last_ten_witness :
  let l := [20000; 30000; 40000] in
  Forall (fun i => 12000 < i < 4294967296) l
  /\ sampleIndex (feed_intervals l init) = 3
  /\ rpmSamples (feed_intervals l init) !! 2%nat = Some (newRPM_of 40000).
Proof.
  cbv zeta.
  assert (Hall : Forall (fun i => 12000 < i < 4294967296)
                   [20000; 30000; 40000])
    by (repeat constructor; lia).
  split; [exact Hall|].
  destruct (ring_buffer_keeps_last_ten [20000; 30000; 40000] Hall)
    as (_ & Hidx & Hlast & _).
  split; [exact Hidx|].
  apply (Hlast 2%nat 40000 eq_refl). cbn. lia.
Defined.

(** ** The demonstration sketch *)

Lemma last_cons {A} (r : A) (rest : list A) (d : A) :
  List.last (r :: rest) d = List.last rest r.
Proof.
  revert r d. induction rest as [|a rest IH]; intros r d; [reflexivity|].
  change (List.last (r :: a :: rest) d) with (List.last (a :: rest) d).
  rewrite !IH. reflexivity.
Qed.

Lemma demo_flip (d : Z) : d = -1 \/ d = 1 -> wrap_int (d * -1) = - d.
Proof. intros [->| ->]; reflexivity. Qed.

(** X16.  [updateServo] of [IRSensorDemo.ino], called on a sequence of RPM
    readings: a reading equal to the previous one commands nothing; each
    reading that differs sends the same angle to the three servos, the
    angles alternating between 135 and 45 from one change to the next
    (starting with 135 when the direction is -1); the direction stays -1 or
    1 and [lastRPM] ends at the last reading. *)
Theorem demo_servos_alternate (rpms : list Z) (s : IRSensorDemo.state) :
  IRSensorDemo.directionFlipFlop s = -1 \/ IRSensorDemo.directionFlipFlop s = 1 ->
  let s' := fst (IRSensorDemo.updates rpms s) in
  snd (IRSensorDemo.updates rpms s)
  = flat_map (fun a => [IRSensorDemo.Write IRSensorDemo.mockActuator a;
                        IRSensorDemo.Write IRSensorDemo.servo2 a;
                        IRSensorDemo.Write IRSensorDemo.servo3 a])
      (IRSensorDemo.angles (IRSensorDemo.directionFlipFlop s)
         (IRSensorDemo.changes (IRSensorDemo.lastRPM s) rpms))
  /\ (IRSensorDemo.directionFlipFlop s' = -1
      \/ IRSensorDemo.directionFlipFlop s' = 1)
  /\ IRSensorDemo.lastRPM s' = List.last rpms (IRSensorDemo.lastRPM s).
Proof.
  revert s. induction rpms as [|r rest IH]; intros s Hd; cbv zeta.
  - cbn. auto.
  - cbn [IRSensorDemo.updates IRSensorDemo.changes].
    unfold IRSensorDemo.updateServo.
    destruct (r =? IRSensorDemo.lastRPM s) eqn:Hr; cbn [negb].
    + apply Z.eqb_eq in Hr.
      destruct (IRSensorDemo.updates rest s) as [s2 o2] eqn:Hu.
      specialize (IH s Hd). cbv zeta in IH. rewrite Hu in IH.
      cbn [fst snd app plus] in *. rewrite <- Hr in IH.
      destruct IH as (Ho & Hd' & Hl). repeat split; try assumption.
      rewrite Hl, last_cons. reflexivity.
    + set (s1 := IRSensorDemo.mkState _ _ r _).
      assert (Hd1 : IRSensorDemo.directionFlipFlop s1
                    = - IRSensorDemo.directionFlipFlop s)
        by (apply demo_flip; exact Hd).
      destruct (IRSensorDemo.updates rest s1) as [s2 o2] eqn:Hu.
      specialize (IH s1). cbv zeta in IH. rewrite Hu in IH.
      rewrite Hd1 in IH.
      destruct IH as (Ho & Hd' & Hl); [lia|].
      cbn [fst snd plus IRSensorDemo.angles flat_map] in *.
      change (IRSensorDemo.lastRPM s1) with r in *.
      rewrite Ho. split; [|split; [exact Hd'|]].
      * destruct Hd as [-> | ->]; reflexivity.
      * rewrite Hl, last_cons. reflexivity.
Qed.

Lemma demo_servos_alternate_witness :
  IRSensorDemo.directionFlipFlop IRSensorDemo.power_on = -1
  /\ snd (IRSensorDemo.updates [0; 10; 10; 12] IRSensorDemo.power_on)
     = [IRSensorDemo.Write IRSensorDemo.mockActuator 135;
        IRSensorDemo.Write IRSensorDemo.servo2 135;
        IRSensorDemo.Write IRSensorDemo.servo3 135;
        IRSensorDemo.Write IRSensorDemo.mockActuator 45;
        IRSensorDemo.Write IRSensorDemo.servo2 45;
        IRSensorDemo.Write IRSensorDemo.servo3 45].
Proof.
  split; [reflexivity|].
  destruct (demo_servos_alternate [0; 10; 10; 12] IRSensorDemo.power_on
              (or_introl eq_refl)) as [H _].
  exact H.
Defined.
